(** * midas-app: the quote view model of [src/App.vue]

    A shallow embedding of the script block of [App.vue]: the display
    helpers ([formatSymbol], [faSymbol], [isBranded]), the streaming
    session ([start], [stop], [subscribe], [unsubscribe],
    [subscribeHandler]) and the message handler
    ([realTimeQuoteResponseHandler]) that feeds the quote store.

    The script runs on a JavaScript host.  Module [JS] holds the part of
    the host the script relies on (strings, parsed JSON values, [Map],
    [WebSocket]); module [App] holds the script itself, one definition
    per source function, under the source's names. *)

From stdpp Require Import base option list.
From Stdlib Require Import Ascii String NArith ZArith Lia Floats.SpecFloat.

Set Warnings "-register-all".

(* ================================================================== *)
(** * The host                                                         *)
(* ================================================================== *)

Module JS.

(** ** Strings

    A JavaScript string is a sequence of UTF-16 code units.  The model
    keeps the code units 0..255, one [ascii] each; every literal of the
    script lies in that range. *)

Local Open Scope string_scope.

Definition code (c : ascii) : N := N_of_ascii c.

Definition between (lo hi : N) (c : ascii) : bool :=
  ((lo <=? code c) && (code c <=? hi))%N.

(** LineTerminator: of U+000A, U+000D, U+2028 and U+2029 the first two
    are code units of the model. *)
Definition is_line_terminator (c : ascii) : bool :=
  ((code c =? 10) || (code c =? 13))%N.

(** Code units with a lower-case partner: A-Z, and U+00C0..U+00DE
    without the multiplication sign U+00D7. *)
Definition has_lower (c : ascii) : bool :=
  between 65 90 c || between 192 214 c || between 216 222 c.

(** Code units with an upper-case partner that is a code unit of the
    model: a-z, and U+00E0..U+00FE without the division sign U+00F7. *)
Definition has_upper (c : ascii) : bool :=
  between 97 122 c || between 224 246 c || between 248 254 c.

Definition lower_char (c : ascii) : ascii :=
  if has_lower c then ascii_of_N (code c + 32) else c.

(** The upper-case form of one code unit.  U+00DF becomes [SS]; the
    upper-case forms of U+00B5 and U+00FF (U+039C and U+0178) are not
    code units of the model, hence [None]. *)
Definition upper_char (c : ascii) : option string :=
  if has_upper c then Some (String (ascii_of_N (code c - 32)) EmptyString)
  else if (code c =? 223)%N then Some "SS"
  else if ((code c =? 181) || (code c =? 255))%N then None
  else Some (String c EmptyString).

Fixpoint map_chars (f : ascii -> ascii) (s : string) : string :=
  match s with
  | EmptyString => EmptyString
  | String c s' => String (f c) (map_chars f s')
  end.

(** [String.prototype.toLowerCase]. *)
Definition toLowerCase : string -> string := map_chars lower_char.

(** [String.prototype.toUpperCase], where the result is a string of the
    model. *)
Fixpoint toUpperCase (s : string) : option string :=
  match s with
  | EmptyString => Some EmptyString
  | String c s' =>
      match upper_char c, toUpperCase s' with
      | Some u, Some us => Some (u ++ us)
      | _, _ => None
      end
  end.

(** [strip_prefix p s]: what follows [p] when [s] starts with [p]. *)
Fixpoint strip_prefix (p s : string) : option string :=
  match p, s with
  | EmptyString, _ => Some s
  | String a p', String b s' =>
      if Ascii.eqb a b then strip_prefix p' s' else None
  | String _ _, EmptyString => None
  end.

(** [Array.prototype.includes] on an array of strings. *)
Definition includes (xs : list string) (x : string) : bool :=
  existsb (String.eqb x) xs.

(** ** Completions

    A call of the host or of the script returns normally or throws. *)

Inductive Error := TypeError | SyntaxError | InvalidStateError.

Inductive Completion (A : Type) :=
| Normal (a : A)
| Throw (e : Error).
Arguments Normal {A} a.
Arguments Throw {A} e.

(** ** Values

    What [JSON.parse] can return, and [undefined], which a property
    read can add.  A number is a double, kept in the Standard Library's
    [spec_float] in canonical form.  Arrays and objects are compared by
    identity: [ref] names the allocation, and [JSON.parse] gives every
    array and object it builds a [ref] that no other value has. *)

Inductive value :=
| VUndefined
| VNull
| VBool (b : bool)
| VNumber (n : spec_float)
| VString (s : string)
| VArray (ref : nat) (elems : list value)
| VObject (ref : nat) (props : list (string * value)).

Definition ToBoolean (v : value) : bool :=
  match v with
  | VUndefined | VNull => false
  | VBool b => b
  | VNumber (S754_zero _) | VNumber S754_nan => false
  | VNumber _ => true
  | VString s => negb (String.eqb s EmptyString)
  | VArray _ _ | VObject _ _ => true
  end.

(** Equality of doubles as numbers: the two zeros are equal; [nan]
    says what a NaN compares to itself. *)
Definition number_eqb (nan : bool) (x y : spec_float) : bool :=
  match x, y with
  | S754_zero _, S754_zero _ => true
  | S754_infinity a, S754_infinity b => Bool.eqb a b
  | S754_nan, S754_nan => nan
  | S754_finite a m e, S754_finite b m' e' =>
      Bool.eqb a b && Pos.eqb m m' && Z.eqb e e'
  | _, _ => false
  end.

Definition value_eqb (nan : bool) (x y : value) : bool :=
  match x, y with
  | VUndefined, VUndefined => true
  | VNull, VNull => true
  | VBool a, VBool b => Bool.eqb a b
  | VNumber a, VNumber b => number_eqb nan a b
  | VString a, VString b => String.eqb a b
  | VArray a _, VArray b _ => Nat.eqb a b
  | VObject a _, VObject b _ => Nat.eqb a b
  | _, _ => false
  end.

(** [x === y], and the comparison of [Map] keys. *)
Definition IsStrictlyEqual : value -> value -> bool := value_eqb false.
Definition SameValueZero : value -> value -> bool := value_eqb true.

Fixpoint assoc (name : string) (props : list (string * value)) : option value :=
  match props with
  | [] => None
  | (k, v) :: props' => if String.eqb k name then Some v else assoc name props'
  end.

(** [v.name], for a name that no built-in prototype defines and that is
    neither [length] nor an index (the script reads [type], [data] and
    [s]).  Reading a property of [undefined] or [null] throws. *)
Definition Get (v : value) (name : string) : Completion value :=
  match v with
  | VUndefined | VNull => Throw TypeError
  | VObject _ props =>
      match assoc name props with
      | Some v => Normal v
      | None => Normal VUndefined
      end
  | _ => Normal VUndefined
  end.

(** ** Map

    The entries in insertion order.  [set] overwrites the value of the
    entry whose key is the same by [SameValueZero] and leaves that entry
    where it is; otherwise it appends an entry, with the key [-0] turned
    into [+0]. *)

Definition Map := list (value * value).

Definition canonical_key (k : value) : value :=
  match k with
  | VNumber (S754_zero _) => VNumber (S754_zero false)
  | _ => k
  end.

Fixpoint Map_set (k v : value) (m : Map) : Map :=
  match m with
  | [] => [(canonical_key k, v)]
  | (k0, v0) :: m' =>
      if SameValueZero k0 k then (k0, v) :: m' else (k0, v0) :: Map_set k v m'
  end.

Fixpoint Map_get (k : value) (m : Map) : option value :=
  match m with
  | [] => None
  | (k0, v0) :: m' => if SameValueZero k0 k then Some v0 else Map_get k m'
  end.

(** ** JSON.stringify

    [QuoteJSONString] on the code units of the model: the quote, the
    backslash and the control characters are escaped. *)

Definition dquote : ascii := ascii_of_N 34.
Definition backslash : ascii := ascii_of_N 92.

Definition hex_digit (n : N) : ascii :=
  if (n <? 10)%N then ascii_of_N (48 + n) else ascii_of_N (87 + n).

Definition escape_char (c : ascii) : string :=
  let n := code c in
  if (n =? 8)%N then String backslash "b"
  else if (n =? 9)%N then String backslash "t"
  else if (n =? 10)%N then String backslash "n"
  else if (n =? 12)%N then String backslash "f"
  else if (n =? 13)%N then String backslash "r"
  else if (n =? 34)%N then String backslash (String dquote EmptyString)
  else if (n =? 92)%N then String backslash (String backslash EmptyString)
  else if (n <? 32)%N then
    String backslash
      ("u00" ++ String (hex_digit (n / 16)) (String (hex_digit (n mod 16)) EmptyString))
  else String c EmptyString.

Fixpoint escape (s : string) : string :=
  match s with
  | EmptyString => EmptyString
  | String c s' => escape_char c ++ escape s'
  end.

Definition QuoteJSONString (s : string) : string :=
  String dquote (escape s ++ String dquote EmptyString).

Fixpoint join_members (ms : list (string * string)) : string :=
  match ms with
  | [] => EmptyString
  | [(k, v)] => QuoteJSONString k ++ ":" ++ QuoteJSONString v
  | (k, v) :: ms' =>
      QuoteJSONString k ++ ":" ++ QuoteJSONString v ++ "," ++ join_members ms'
  end.

(** [JSON.stringify] of an object literal whose properties, in the order
    of the literal, are all strings. *)
Definition JSON_stringify (members : list (string * string)) : string :=
  "{" ++ join_members members ++ "}".

(** ** WebSocket

    One connection object: its URL, its ready state, its event
    listeners (event type and the name of the function registered) and
    the frames handed to the network so far. *)

Inductive ReadyState := CONNECTING | OPEN | CLOSING | CLOSED.

Record WebSocket := mkWebSocket {
  url : string;
  readyState : ReadyState;
  listeners : list (string * string);
  sent : list string
}.

Definition has_fragment (u : string) : bool :=
  existsb (fun c => (code c =? 35)%N) (list_ascii_of_string u).

(** [new WebSocket(u)] for a URL [wss://host?query]: parsing cannot
    fail, and the constructor throws a SyntaxError exactly when the URL
    has a fragment. *)
Definition new_WebSocket (u : string) : Completion WebSocket :=
  if has_fragment u then Throw SyntaxError
  else Normal (mkWebSocket u CONNECTING [] []).

Definition listener_eqb (a b : string * string) : bool :=
  String.eqb (fst a) (fst b) && String.eqb (snd a) (snd b).

(** A listener already registered for the type is not registered twice. *)
Definition addEventListener (type callback : string) (ws : WebSocket)
  : Completion unit * WebSocket :=
  (Normal tt,
   if existsb (listener_eqb (type, callback)) (listeners ws) then ws
   else mkWebSocket (url ws) (readyState ws)
          (listeners ws ++ [(type, callback)]) (sent ws)).

Definition removeEventListener (type callback : string) (ws : WebSocket)
  : Completion unit * WebSocket :=
  (Normal tt,
   mkWebSocket (url ws) (readyState ws)
     (List.filter (fun l => negb (listener_eqb (type, callback) l)) (listeners ws))
     (sent ws)).

(** [send] throws while the connection is being established, transmits
    on an open connection and drops the data on a closing or closed
    one. *)
Definition send (data : string) (ws : WebSocket) : Completion unit * WebSocket :=
  match readyState ws with
  | CONNECTING => (Throw InvalidStateError, ws)
  | OPEN =>
      (Normal tt,
       mkWebSocket (url ws) OPEN (listeners ws) (sent ws ++ [data]))
  | CLOSING | CLOSED => (Normal tt, ws)
  end.

(** [close()] starts the closing handshake unless it has started or
    finished already. *)
Definition close (ws : WebSocket) : Completion unit * WebSocket :=
  match readyState ws with
  | CONNECTING | OPEN =>
      (Normal tt, mkWebSocket (url ws) CLOSING (listeners ws) (sent ws))
  | CLOSING | CLOSED => (Normal tt, ws)
  end.

Definition with_readyState (r : ReadyState) (ws : WebSocket) : WebSocket :=
  mkWebSocket (url ws) r (listeners ws) (sent ws).

(** The callbacks registered for an event type, in registration order. *)
Definition callbacks (type : string) (ws : WebSocket) : list string :=
  List.map snd (List.filter (fun l => String.eqb (fst l) type) (listeners ws)).

End JS.

(* ================================================================== *)
(** * The script                                                       *)
(* ================================================================== *)

Module App.
Import JS.

Local Open Scope string_scope.

(** ** Display helpers *)

(** The pattern [/BINANCE:(?<symbol>.+)USDT/], matched by backtracking.

    [group_then_USDT s] runs the part [(?<symbol>.+)USDT] at the start
    of [s] and returns the capture and what follows the match.  [.]
    takes one code unit that is no line terminator; [+] is greedy, so a
    longer capture is tried before a shorter one. *)
Fixpoint group_then_USDT (s : string) : option (string * string) :=
  match s with
  | EmptyString => None
  | String c s' =>
      if is_line_terminator c then None
      else match group_then_USDT s' with
           | Some (cap, rest) => Some (String c cap, rest)
           | None =>
               match strip_prefix "USDT" s' with
               | Some rest => Some (String c EmptyString, rest)
               | None => None
               end
           end
  end.

(** One attempt of the whole pattern at the start of [s]. *)
Definition match_here (s : string) : option (string * string) :=
  match strip_prefix "BINANCE:" s with
  | Some s' => group_then_USDT s'
  | None => None
  end.

(** The pattern is not anchored: the attempts go from left to right and
    the first success wins.  The result is the text before the match,
    the capture and the text after the match. *)
Fixpoint exec (s : string) : option (string * string * string) :=
  match match_here s with
  | Some (cap, rest) => Some (EmptyString, cap, rest)
  | None =>
      match s with
      | EmptyString => None
      | String c s' =>
          match exec s' with
          | Some (pre, cap, rest) => Some (String c pre, cap, rest)
          | None => None
          end
      end
  end.

(** [symbol.replace(/BINANCE:(?<symbol>.+)USDT/, "$1")]: the first match
    is replaced by its first capture, the text around it stays. *)
Definition formatSymbol (symbol : string) : string :=
  match exec symbol with
  | Some (pre, cap, rest) => pre ++ cap ++ rest
  | None => symbol
  end.

Definition faSymbol (symbol : string) : string :=
  let key := toLowerCase (formatSymbol symbol) in
  if String.eqb key "eth" then "ethereum"
  else if String.eqb key "btc" then "btc"
  else EmptyString.

Definition branded : list string := ["BTC"; "ETH"].

Definition isBranded (symbol : string) : bool :=
  if includes branded (formatSymbol symbol) then true else false.

(** ** State of the script

    [quotes] and [socket] are the two refs of the script.  The script
    holds one reference to a connection, [socket.value]; a connection
    that [start] has replaced stays alive on the host with its
    listeners, and is kept in [detached].  [console] is what
    [console.error] has printed. *)

Record State := mkState {
  quotes : Map;
  socket : option WebSocket;
  detached : list WebSocket;
  console : list value
}.

Definition initial : State := mkState [] None [] [].

(** Script code runs in a state and returns normally or throws; what it
    did before a throw stays done. *)
Definition M (A : Type) : Type := State -> Completion A * State.

#[global] Instance M_ret : MRet M := fun A a st => (Normal a, st).

#[global] Instance M_bind : MBind M := fun A B k m st =>
  match m st with
  | (Normal a, st') => k a st'
  | (Throw e, st') => (Throw e, st')
  end.

Definition lift {A} (c : Completion A) : M A := fun st => (c, st).

(** [socket.value] read, and [socket.value = ws]. *)
Definition socket_value : M (option WebSocket) :=
  fun st => (Normal (socket st), st).

Definition assign_socket (ws : WebSocket) : M unit :=
  fun st =>
    (Normal tt,
     mkState (quotes st) (Some ws)
       (detached st ++ match socket st with Some old => [old] | None => [] end)
       (console st)).

(** [socket.value.f(...)]: a method call on the current connection. *)
Definition on_socket {A} (f : WebSocket -> Completion A * WebSocket) : M A :=
  fun st =>
    match socket st with
    | Some ws =>
        let (r, ws') := f ws in
        (r, mkState (quotes st) (Some ws') (detached st) (console st))
    | None => (Throw TypeError, st)
    end.

(** [quotes.value.set(k, v)]. *)
Definition quotes_set (k v : value) : M unit :=
  fun st =>
    (Normal tt,
     mkState (Map_set k v (quotes st)) (socket st) (detached st) (console st)).

Definition console_error (v : value) : M unit :=
  fun st =>
    (Normal tt,
     mkState (quotes st) (socket st) (detached st) (console st ++ [v])).

Fixpoint for_each (f : value -> M unit) (xs : list value) : M unit :=
  match xs with
  | [] => mret tt
  | x :: xs' => f x ;; for_each f xs'
  end.

(** [a.forEach(f)]: only an array has a [forEach] that can be called. *)
Definition forEach (a : value) (f : value -> M unit) : M unit :=
  match a with
  | VArray _ elems => for_each f elems
  | _ => lift (Throw TypeError)
  end.

(** ** The streaming session *)

(** A message event, with [data] given by what [JSON.parse] makes of
    it: the parsed value, or the SyntaxError it throws. *)
Record MessageEvent := mkMessageEvent { data : Completion value }.

Definition JSON_parse (d : Completion value) : M value := lift d.

Definition realTimeQuoteResponseHandler (event : MessageEvent) : M unit :=
  response ← JSON_parse (data event);
  if ToBoolean response then
    type ← lift (Get response "type");
    if IsStrictlyEqual type (VString "error") then
      console_error response
    else if IsStrictlyEqual type (VString "trade") then
      trade_data ← lift (Get response "data");
      forEach trade_data (fun quote =>
        s ← lift (Get quote "s");
        quotes_set s quote)
    else mret tt
  else mret tt.

Definition subscribe (symbol : string) : M unit :=
  sv ← socket_value;
  if decide (sv ≠ None) then
    on_socket (send (JSON_stringify [("type", "subscribe"); ("symbol", symbol)]))
  else mret tt.

Definition unsubscribe (symbol : string) : M unit :=
  sv ← socket_value;
  if decide (sv ≠ None) then
    on_socket (send (JSON_stringify [("type", "unsubscribe"); ("symbol", symbol)]))
  else mret tt.

(** The handler does not look at its event. *)
Definition subscribeHandler : M unit :=
  subscribe "AAPL" ;;
  subscribe "GME" ;;
  subscribe "TSLA" ;;
  subscribe "SHOP" ;;
  subscribe "BINANCE:BTCUSDT" ;;
  subscribe "BINANCE:ETHUSDT" ;;
  subscribe "BINANCE:ADAUSDT" ;;
  subscribe "BINANCE:SOLUSDT".

Definition start (token : string) : M unit :=
  ws ← lift (new_WebSocket ("wss://ws.finnhub.io?token=" ++ token));
  assign_socket ws ;;
  on_socket (addEventListener "open" "subscribeHandler") ;;
  on_socket (addEventListener "message" "realTimeQuoteResponseHandler").

Definition stop : M unit :=
  sv ← socket_value;
  if decide (sv ≠ None) then
    on_socket (removeEventListener "message" "realTimeQuoteResponseHandler") ;;
    on_socket (removeEventListener "open" "subscribeHandler") ;;
    on_socket close
  else mret tt.

Definition addSymbol (symbol : string) : M unit := subscribe symbol.

(** ** The event loop

    What the host can do to the script: the three user actions of the
    template that touch the state, a call of [unsubscribe] (the template
    has no control for it), and the events of a connection, the current
    one or a detached one.  The search form only prints what the search
    returns with [console.log]; it reads and writes nothing of [State]
    and has no event here. *)

Inductive Target := Current | Detached (i : nat).

Inductive Event :=
| ClickStart (token : string)
| ClickStop
| SubmitAdd (symbol : string)
| CallUnsubscribe (symbol : string)
| Open (t : Target)
| Message (t : Target) (event : MessageEvent)
| Closed (t : Target).

Definition target (t : Target) (st : State) : option WebSocket :=
  match t with
  | Current => socket st
  | Detached i => detached st !! i
  end.

Definition set_target (t : Target) (ws : WebSocket) (st : State) : State :=
  match t with
  | Current => mkState (quotes st) (Some ws) (detached st) (console st)
  | Detached i => mkState (quotes st) (socket st) (<[i := ws]> (detached st)) (console st)
  end.

(** An exception that leaves a listener is reported by the host and
    goes no further. *)
Definition run (m : M unit) (st : State) : State := snd (m st).

Definition invoke (callback : string) (event : MessageEvent) : M unit :=
  if String.eqb callback "subscribeHandler" then subscribeHandler
  else if String.eqb callback "realTimeQuoteResponseHandler"
  then realTimeQuoteResponseHandler event
  else mret tt.

Definition dispatch (cbs : list string) (event : MessageEvent) (st : State) : State :=
  fold_left (fun st' cb => run (invoke cb event) st') cbs st.

(** An event that is no message has no [data]; [JSON.parse(undefined)]
    throws. *)
Definition no_data : MessageEvent := mkMessageEvent (Throw SyntaxError).

(** The host opens a connection that is being established, delivers
    messages on an open one, and closes one that is not closed yet. *)
Definition step (e : Event) (st : State) : State :=
  match e with
  | ClickStart token => run (start token) st
  | ClickStop => run stop st
  | SubmitAdd symbol => run (addSymbol symbol) st
  | CallUnsubscribe symbol => run (unsubscribe symbol) st
  | Open t =>
      match target t st with
      | Some ws =>
          match readyState ws with
          | CONNECTING =>
              dispatch (callbacks "open" ws) no_data
                (set_target t (with_readyState OPEN ws) st)
          | _ => st
          end
      | None => st
      end
  | Message t event =>
      match target t st with
      | Some ws =>
          match readyState ws with
          | OPEN => dispatch (callbacks "message" ws) event st
          | _ => st
          end
      | None => st
      end
  | Closed t =>
      match target t st with
      | Some ws =>
          match readyState ws with
          | CLOSED => st
          | _ => set_target t (with_readyState CLOSED ws) st
          end
      | None => st
      end
  end.

Definition steps (es : list Event) (st : State) : State :=
  fold_left (fun st' e => step e st') es st.

(** The states the script can be in. *)
Inductive reachable : State -> Prop :=
| reachable_initial : reachable initial
| reachable_step e st : reachable st -> reachable (step e st).

(** ** The display helpers as the template calls them

    The template passes [quote.s], which at run time is whatever the
    frame held.  [symbol.replace(...)] needs a string: on [undefined]
    and [null] the property read throws, and no other value of the model
    has a [replace] that can be called.  On a string the helpers are the
    functions above. *)

Definition formatSymbol_call (symbol : value) : Completion string :=
  match symbol with
  | VString s => Normal (formatSymbol s)
  | _ => Throw TypeError
  end.

Definition faSymbol_call (symbol : value) : Completion string :=
  match formatSymbol_call symbol with
  | Normal _ =>
      match symbol with
      | VString s => Normal (faSymbol s)
      | _ => Throw TypeError
      end
  | Throw e => Throw e
  end.

Definition isBranded_call (symbol : value) : Completion bool :=
  match formatSymbol_call symbol with
  | Normal formatted => Normal (if includes branded formatted then true else false)
  | Throw e => Throw e
  end.

(** [try { return "fa-brands fa-" + faSymbol(symbol) } catch (err) { return "" }]. *)
Definition symbolIconString (symbol : value) : string :=
  match faSymbol_call symbol with
  | Normal id => "fa-brands fa-" ++ id
  | Throw _ => EmptyString
  end.

(** ** Symbol search

    [client_get] stands for the host's HTTP client,
    [(await getClient()).get(url)]: the response object, or the
    rejection of one of the two promises.  What [console.log] prints is
    returned beside the completion. *)

Definition search_url (query token : string) : string :=
  "https://finnhub.io/api/v1/search?q=" ++ query ++ "&token=" ++ token.

Definition search (client_get : string -> Completion value) (query token : string)
  : Completion value :=
  match client_get (search_url query token) with
  | Throw e => Throw e
  | Normal response =>
      if ToBoolean response then
        match Get response "data" with
        | Throw e => Throw e
        | Normal payload =>
            if ToBoolean payload then Get payload "result" else Normal VUndefined
        end
      else Normal VUndefined
  end.

Definition performSearch (client_get : string -> Completion value) (query token : string)
  : Completion unit * list value :=
  match search client_get query token with
  | Throw e => (Throw e, [])
  | Normal (VArray _ results) => (Normal tt, results)
  | Normal _ => (Throw TypeError, [])
  end.

End App.

Import JS App.

(* ================================================================== *)
(** * Vocabulary of the statements                                     *)
(* ================================================================== *)

Section SpecWording.
Local Open Scope string_scope.

(** No code unit of [s] is a line terminator. *)
Fixpoint one_line (s : string) : bool :=
  match s with
  | EmptyString => true
  | String c s' => negb (is_line_terminator c) && one_line s'
  end.

(** [s] has a part [BINANCE:XXXUSDT], with [XXX] non-empty and on one
    line. *)
Definition has_binance_pair (s : string) : Prop :=
  exists pre xxx post,
    s = pre ++ "BINANCE:" ++ xxx ++ "USDT" ++ post /\
    xxx <> EmptyString /\ one_line xxx = true.

(** The spec's [isBranded]: the formatted symbol is upper-cased, then
    compared. *)
Definition isBranded_uppercased (symbol : string) : bool :=
  match toUpperCase (formatSymbol symbol) with
  | Some upper => includes branded upper
  | None => false
  end.

(** The capital of a letter a-z. *)
Definition capital (c : ascii) : ascii :=
  if between 97 122 c then ascii_of_N (code c - 32) else c.

(** The case variants of a word of letters a-z: every letter as it is
    or as a capital. *)
Fixpoint case_variants (w : string) : list string :=
  match w with
  | EmptyString => [EmptyString]
  | String c w' =>
      flat_map (fun v => [String c v; String (capital c) v]) (case_variants w')
  end.

(** A word of the letters a-z. *)
Fixpoint lower_case_word (w : string) : bool :=
  match w with
  | EmptyString => true
  | String c w' => between 97 122 c && lower_case_word w'
  end.

(** The [type] member of a parsed frame, when the frame is an object
    and the member is a string. *)
Definition frame_type (response : value) : option string :=
  match response with
  | VObject _ props =>
      match assoc "type" props with
      | Some (VString t) => Some t
      | _ => None
      end
  | _ => None
  end.

(** The symbol field of a quote record. *)
Definition symbol_of (quote : value) : value :=
  match Get quote "s" with
  | Normal s => s
  | Throw _ => VUndefined
  end.

(** Something a property can be read of: not [null], not [undefined]. *)
Definition is_record (v : value) : bool :=
  match v with
  | VUndefined | VNull => false
  | _ => true
  end.

(** Every record upserted under its symbol, in the order of the array. *)
Definition upsert_all (records : list value) (m : Map) : Map :=
  fold_left (fun m' quote => Map_set (symbol_of quote) quote m') records m.

Definition with_quotes (m : Map) (st : State) : State :=
  mkState m (socket st) (detached st) (console st).

Definition with_console (c : list value) (st : State) : State :=
  mkState (quotes st) (socket st) (detached st) c.

Definition with_socket (ws : WebSocket) (st : State) : State :=
  mkState (quotes st) (Some ws) (detached st) (console st).

(** Every entry of the store is keyed by the symbol field of the quote
    it holds. *)
Definition keyed_by_symbol (m : Map) : Prop :=
  forall k quote, In (k, quote) m ->
    exists s, Get quote "s" = Normal s /\ SameValueZero k s = true.

(** The preset symbols and the frames of the session. *)
Definition preset_symbols : list string :=
  ["AAPL"; "GME"; "TSLA"; "SHOP";
   "BINANCE:BTCUSDT"; "BINANCE:ETHUSDT"; "BINANCE:ADAUSDT"; "BINANCE:SOLUSDT"].

Definition subscribe_frame (symbol : string) : string :=
  JSON_stringify [("type", "subscribe"); ("symbol", symbol)].

Definition unsubscribe_frame (symbol : string) : string :=
  JSON_stringify [("type", "unsubscribe"); ("symbol", symbol)].

Definition quoted (s : string) : string :=
  String dquote (s ++ String dquote EmptyString).

Definition with_sent (frames : list string) (ws : WebSocket) : WebSocket :=
  mkWebSocket (url ws) (readyState ws) (listeners ws) frames.

(** The listeners [stop] leaves on a connection. *)
Definition deregistered (ls : list (string * string)) : list (string * string) :=
  List.filter (fun l => negb (listener_eqb ("open", "subscribeHandler") l))
    (List.filter
       (fun l => negb (listener_eqb ("message", "realTimeQuoteResponseHandler") l))
       ls).

(** The class of a [Map] key: what [SameValueZero] looks at. *)
Definition key_class (v : value) : value :=
  match v with
  | VNumber (S754_zero _) => VNumber (S754_zero false)
  | VArray ref _ => VArray ref []
  | VObject ref _ => VObject ref []
  | _ => v
  end.

(** [m] keeps the relation [R] between the state it starts in and the
    state it leaves, whether it returns or throws. *)
Definition keeps {A} (R : State -> State -> Prop) (m : M A) : Prop :=
  forall st, R st (snd (m st)).

Definition same_quotes (st st' : State) : Prop := quotes st' = quotes st.

Definition still_keyed (st st' : State) : Prop :=
  keyed_by_symbol (quotes st) -> keyed_by_symbol (quotes st').

(** A trade frame as the provider sends it, and a quote of AAPL. *)
Definition trade_frame (records : list value) : value :=
  VObject 0 [("data", VArray 1 records); ("type", VString "trade")].

Definition aapl_quote (ref : nat) (p v t : string) : value :=
  VObject ref
    [("c", VNull); ("p", VString p); ("s", VString "AAPL");
     ("t", VString t); ("v", VString v)].

Definition message (frame : value) : MessageEvent := mkMessageEvent (Normal frame).

(** A guarded [send] on the current connection, as [subscribe] and
    [unsubscribe] do it. *)
Definition guarded_send (frame : string) : M unit :=
  sv ← socket_value;
  if decide (sv <> None) then on_socket (send frame) else mret tt.

(** The connection [start] makes, and the state it leaves. *)
Definition connection (token : string) : WebSocket :=
  mkWebSocket ("wss://ws.finnhub.io?token=" ++ token) CONNECTING
    [("open", "subscribeHandler"); ("message", "realTimeQuoteResponseHandler")] [].

Definition started (token : string) (st : State) : State :=
  mkState (quotes st) (Some (connection token))
    (detached st ++ match socket st with Some old => [old] | None => [] end)
    (console st).

(** The ready state after [close()]. *)
Definition after_close (r : ReadyState) : ReadyState :=
  match r with
  | CONNECTING | OPEN => CLOSING
  | CLOSING => CLOSING
  | CLOSED => CLOSED
  end.

(** The connection [stop] leaves. *)
Definition stopped (ws : WebSocket) : WebSocket :=
  mkWebSocket (url ws) (after_close (readyState ws))
    (deregistered (listeners ws)) (sent ws).

(** The text of a subscribe frame. *)
Definition subscribe_text (symbol : string) : string :=
  "{" ++ quoted "type" ++ ":" ++ quoted "subscribe" ++ "," ++
  quoted "symbol" ++ ":" ++ quoted symbol ++ "}".

(** The keys of the store, in the order the template lists them. *)
Definition keys (m : Map) : list value := List.map fst m.


(** The last record of an array that goes under the key [k]. *)
Fixpoint latest (k : value) (records : list value) : option value :=
  match records with
  | [] => None
  | quote :: records' =>
      match latest k records' with
      | Some later => Some later
      | None => if SameValueZero (symbol_of quote) k then Some quote else None
      end
  end.

(** The frames the session writes. *)
Definition session_frame (frame : string) : Prop :=
  exists symbol, frame = subscribe_frame symbol \/ frame = unsubscribe_frame symbol.

(** A connection has been sent session frames only, and none while it
    was being established. *)
Definition orderly (ws : WebSocket) : Prop :=
  Forall session_frame (sent ws) /\ (readyState ws = CONNECTING -> sent ws = []).

(** Every connection the host holds for the script. *)
Definition connections (st : State) : list WebSocket :=
  (match socket st with Some ws => [ws] | None => [] end ++ detached st)%list.

Definition all_orderly (st : State) : Prop := Forall orderly (connections st).

Definition still_orderly (st st' : State) : Prop := all_orderly st -> all_orderly st'.

(** The store has the keys it had, in their order, and maybe more after
    them. *)
Definition keys_grow (st st' : State) : Prop :=
  exists new, keys (quotes st') = (keys (quotes st) ++ new)%list.


(** The connections that were detached are detached still, with the
    frames they had. *)
Definition detached_silent (st st' : State) : Prop :=
  forall i ws, detached st !! i = Some ws ->
    exists ws', detached st' !! i = Some ws' /\ sent ws' = sent ws.

Definition same_detached (st st' : State) : Prop := detached st' = detached st.

Definition same_connections (st st' : State) : Prop :=
  socket st' = socket st /\ detached st' = detached st.

(** An HTTP client that answers every request with [response]. *)
Definition answering (response : Completion value) : string -> Completion value :=
  fun _ => response.

End SpecWording.

(* ================================================================== *)
(** * Display helpers                                                  *)
(* ================================================================== *)

Section DisplayHelpers.
Local Open Scope string_scope.

Lemma strip_prefix_app p r : strip_prefix p (p ++ r) = Some r.
Proof.
  induction p as [|a p IH]; simpl; [reflexivity|].
  rewrite Ascii.eqb_refl. exact IH.
Qed.

Lemma strip_prefix_Some p s r : strip_prefix p s = Some r -> s = p ++ r.
Proof.
  revert s. induction p as [|a p IH]; intros [|b s]; simpl; try congruence.
  destruct (Ascii.eqb_spec a b) as [->|]; [|discriminate].
  intros H. f_equal. auto.
Qed.

(** What [group_then_USDT] returns is a match of [(.+)USDT]. *)
Lemma group_then_USDT_sound s cap rest :
  group_then_USDT s = Some (cap, rest) ->
  s = cap ++ "USDT" ++ rest /\ cap <> EmptyString /\ one_line cap = true.
Proof.
  revert cap rest. induction s as [|c s IH]; intros cap rest;
    cbn [group_then_USDT]; [discriminate|].
  destruct (is_line_terminator c) eqn:Hc; [discriminate|].
  destruct (group_then_USDT s) as [[cap' rest']|].
  - intros [= <- <-]. destruct (IH _ _ eq_refl) as (-> & _ & Hl).
    cbn [append one_line]. rewrite Hc, Hl. repeat split; congruence.
  - destruct (strip_prefix "USDT" s) as [r|] eqn:Hp; [|discriminate].
    intros [= <- <-]. apply strip_prefix_Some in Hp. subst s.
    cbn [append one_line]. rewrite Hc. repeat split; congruence.
Qed.

(** Where [(.+)USDT] can match, [group_then_USDT] finds a match. *)
Lemma group_then_USDT_complete xxx post :
  xxx <> EmptyString -> one_line xxx = true ->
  group_then_USDT (xxx ++ "USDT" ++ post) <> None.
Proof.
  induction xxx as [|c xxx IH]; [congruence|]. intros _ Hl.
  cbn [one_line] in Hl. apply andb_prop in Hl as [Hc Hl].
  apply negb_true_iff in Hc.
  change (String c xxx ++ "USDT" ++ post) with (String c (xxx ++ "USDT" ++ post)).
  cbn [group_then_USDT]. rewrite Hc.
  destruct (group_then_USDT (xxx ++ "USDT" ++ post)) as [[cap rest]|] eqn:Hg;
    [discriminate|].
  destruct xxx as [|d xxx].
  - change (EmptyString ++ "USDT" ++ post) with ("USDT" ++ post).
    rewrite (strip_prefix_app "USDT" post). discriminate.
  - exfalso. apply IH; [discriminate | exact Hl | reflexivity].
Qed.

(** A capture that runs to the end of the input is taken whole. *)
Lemma group_then_USDT_whole xxx :
  xxx <> EmptyString -> one_line xxx = true ->
  group_then_USDT (xxx ++ "USDT") = Some (xxx, EmptyString).
Proof.
  induction xxx as [|c xxx IH]; [congruence|]. intros _ Hl.
  cbn [one_line] in Hl. apply andb_prop in Hl as [Hc Hl].
  apply negb_true_iff in Hc.
  change (String c xxx ++ "USDT") with (String c (xxx ++ "USDT")).
  cbn [group_then_USDT]. rewrite Hc.
  destruct xxx as [|d xxx].
  - reflexivity.
  - rewrite IH; [reflexivity | discriminate | exact Hl].
Qed.

Lemma exec_sound s pre cap rest :
  exec s = Some (pre, cap, rest) ->
  s = pre ++ "BINANCE:" ++ cap ++ "USDT" ++ rest /\
  cap <> EmptyString /\ one_line cap = true.
Proof.
  revert pre. induction s as [|c s IH]; intros pre.
  - simpl. discriminate.
  - cbn [exec]. destruct (match_here (String c s)) as [[cap' rest']|] eqn:Hm.
    + intros [= <- <- <-]. unfold match_here in Hm.
      destruct (strip_prefix "BINANCE:" (String c s)) as [s'|] eqn:Hp; [|discriminate].
      apply strip_prefix_Some in Hp. apply group_then_USDT_sound in Hm as (-> & ? & ?).
      rewrite Hp. auto.
    + destruct (exec s) as [[[pre' cap'] rest']|]; [|discriminate].
      intros [= <- <- <-]. destruct (IH _ eq_refl) as (-> & ? & ?). auto.
Qed.

Lemma match_here_complete xxx post :
  xxx <> EmptyString -> one_line xxx = true ->
  match_here ("BINANCE:" ++ xxx ++ "USDT" ++ post) <> None.
Proof.
  intros Hne Hl. unfold match_here. rewrite strip_prefix_app.
  apply group_then_USDT_complete; assumption.
Qed.

Lemma exec_here s : match_here s <> None -> exec s <> None.
Proof.
  intros H. destruct s; cbn [exec] in *;
    destruct (match_here _) as [[? ?]|]; [discriminate | congruence ..].
Qed.

Lemma exec_later c s : exec s <> None -> exec (String c s) <> None.
Proof.
  intros H. cbn [exec]. destruct (match_here _) as [[? ?]|]; [discriminate|].
  destruct (exec s) as [[[? ?] ?]|]; [discriminate | congruence].
Qed.

Lemma exec_complete s : has_binance_pair s -> exec s <> None.
Proof.
  intros (pre & xxx & post & -> & Hne & Hl).
  induction pre as [|c pre IH].
  - apply exec_here, match_here_complete; assumption.
  - apply exec_later, IH.
Qed.

Lemma exec_None_iff s : exec s = None <-> ~ has_binance_pair s.
Proof.
  split.
  - intros H Hp. exact (exec_complete s Hp H).
  - intros H. destruct (exec s) as [[[pre cap] rest]|] eqn:E; [|reflexivity].
    exfalso. apply H. exists pre, cap, rest. apply exec_sound. exact E.
Qed.

Lemma exec_match_here s cap rest :
  match_here s = Some (cap, rest) -> exec s = Some (EmptyString, cap, rest).
Proof. intros H. destruct s; cbn [exec]; rewrite H; reflexivity. Qed.

Lemma string_app_nil_r (a : string) : a ++ EmptyString = a.
Proof. induction a; simpl; congruence. Qed.

Lemma formatSymbol_whole_pair xxx :
  xxx <> EmptyString -> one_line xxx = true ->
  formatSymbol ("BINANCE:" ++ xxx ++ "USDT") = xxx.
Proof.
  intros Hne Hl. unfold formatSymbol.
  rewrite (exec_match_here _ xxx EmptyString).
  - cbn [append]. apply string_app_nil_r.
  - unfold match_here. rewrite strip_prefix_app.
    apply group_then_USDT_whole; assumption.
Qed.

Lemma formatSymbol_no_pair s : ~ has_binance_pair s -> formatSymbol s = s.
Proof.
  intros H. apply exec_None_iff in H. unfold formatSymbol. rewrite H. reflexivity.
Qed.

Lemma formatSymbol_some_pair s :
  has_binance_pair s ->
  exists pre xxx post,
    s = pre ++ "BINANCE:" ++ xxx ++ "USDT" ++ post /\
    xxx <> EmptyString /\ one_line xxx = true /\
    formatSymbol s = pre ++ xxx ++ post.
Proof.
  intros H. apply exec_complete in H.
  destruct (exec s) as [[[pre cap] rest]|] eqn:E; [|congruence].
  exists pre, cap, rest. destruct (exec_sound _ _ _ _ E) as (? & ? & ?).
  unfold formatSymbol. rewrite E. auto.
Qed.

(** ** Letter case *)

Lemma lower_char_inv c t :
  lower_char c = t -> between 97 122 t = true ->
  c = t \/ c = capital t.
Proof.
  intros <-. destruct c as [[] [] [] [] [] [] [] []]; vm_compute;
    intros; try discriminate; auto.
Qed.

Lemma lower_char_variants c t :
  between 97 122 t = true ->
  c = t \/ c = capital t -> lower_char c = t.
Proof.
  intros Ht Hc.
  destruct t as [[] [] [] [] [] [] [] []];
    first [ discriminate Ht | destruct Hc as [-> | ->]; reflexivity ].
Qed.

(** A string lower-cases to a word of letters a-z exactly when it is
    one of the word's case variants. *)
Lemma toLowerCase_case_variants w x :
  lower_case_word w = true ->
  toLowerCase x = w <-> In x (case_variants w).
Proof.
  revert x. induction w as [|t w IH]; intros x Hw.
  - destruct x; cbn; intuition congruence.
  - cbn [lower_case_word] in Hw. apply andb_prop in Hw as [Ht Hw].
    cbn [case_variants]. rewrite in_flat_map. split.
    + destruct x as [|c x]; [discriminate|]. intros [= Hc Hx].
      exists x. split; [apply IH; assumption|].
      destruct (lower_char_inv c t Hc Ht) as [-> | ->]; cbn; auto.
    + intros (v & Hv & Hx). apply IH in Hv; [|assumption].
      assert (exists c, x = String c v /\ (c = t \/ c = capital t))
        as (c & -> & Hc).
      { destruct Hx as [<- | [<- | []]]; eauto. }
      unfold toLowerCase in *. cbn [map_chars]. f_equal; [|exact Hv].
      apply lower_char_variants; assumption.
Qed.

Lemma includes_branded x :
  includes branded x = true <-> x = "BTC" \/ x = "ETH".
Proof.
  unfold includes, branded. cbn [existsb].
  rewrite !orb_true_iff, !String.eqb_eq. intuition discriminate.
Qed.


(** C3 (amended).  [formatSymbol] looks for the literal text
    [BINANCE:], a non-empty [XXX] on one line and [USDT].  An input
    [BINANCE:XXXUSDT] gives [XXX]; an input that has no such part
    anywhere is returned unchanged; an input that has one gives the
    text around one such part with [XXX] in between.
    [formatSymbol "BINANCE:BTCUSDT"] is ["BTC"] and
    [formatSymbol "AAPL"] is ["AAPL"]. *)
Theorem formatSymbol_binance_only :
  (forall xxx : string,
      xxx <> EmptyString -> one_line xxx = true ->
      formatSymbol ("BINANCE:" ++ xxx ++ "USDT") = xxx) /\
  (forall s : string, ~ has_binance_pair s -> formatSymbol s = s) /\
  (forall s : string,
      has_binance_pair s ->
      exists pre xxx post : string,
        s = (pre ++ "BINANCE:" ++ xxx ++ "USDT" ++ post)%string /\
        xxx <> EmptyString /\ one_line xxx = true /\
        formatSymbol s = (pre ++ xxx ++ post)%string) /\
  formatSymbol "BINANCE:BTCUSDT" = "BTC"%string /\
  formatSymbol "AAPL" = "AAPL"%string.
Proof.
  split; [exact formatSymbol_whole_pair|].
  split; [exact formatSymbol_no_pair|].
  split; [exact formatSymbol_some_pair|].
  split; reflexivity.
Qed.

Lemma formatSymbol_binance_only_witness :
  formatSymbol ("BINANCE:" ++ "SOL" ++ "USDT") = "SOL"%string.
Proof.
  apply (proj1 formatSymbol_binance_only "SOL"%string); [discriminate | reflexivity].
Defined.

(** C3 as the spec words it fails: a pair of another venue has the
    shape [PREFIX:XXXUSDT] and comes back as it is. *)
Lemma formatSymbol_other_venue :
  ~ (forall venue xxx : string,
        formatSymbol (venue ++ ":" ++ xxx ++ "USDT") = xxx).
Proof.
  intros H. specialize (H "COINBASE"%string "BTC"%string). discriminate H.
Qed.

(** C4 (amended).  [isBranded] compares the formatted symbol as it is,
    without changing its case: it is true exactly when [formatSymbol]
    gives ["BTC"] or ["ETH"].  [isBranded "BINANCE:ETHUSDT"] is true and
    [isBranded "AAPL"] is false. *)
Theorem isBranded_exact_case (symbol : string) :
  (isBranded symbol = true <->
   formatSymbol symbol = "BTC"%string \/ formatSymbol symbol = "ETH"%string) /\
  isBranded "BINANCE:ETHUSDT" = true /\
  isBranded "AAPL" = false.
Proof.
  split; [|split; reflexivity].
  unfold isBranded. rewrite <- includes_branded.
  destruct (includes branded (formatSymbol symbol)); intuition congruence.
Qed.

Lemma isBranded_exact_case_witness : isBranded "BINANCE:BTCUSDT" = true.
Proof.
  apply (proj1 (isBranded_exact_case "BINANCE:BTCUSDT")). left. reflexivity.
Defined.

(** C4 as the spec words it fails: ["eth"] upper-cases to ["ETH"], and
    [isBranded "eth"] is false. *)
Lemma isBranded_lower_case_eth :
  toUpperCase (formatSymbol "eth") = Some "ETH" /\
  isBranded_uppercased "eth" = true /\
  isBranded "eth" = false.
Proof. repeat split. Qed.

(** C5.  [faSymbol] gives ["ethereum"] when the formatted symbol is a
    case variant of [eth], ["btc"] when it is a case variant of [btc],
    and the empty string for every other symbol. *)
Theorem faSymbol_case_variants (symbol : string) :
  (In (formatSymbol symbol) (case_variants "eth") ->
   faSymbol symbol = "ethereum"%string) /\
  (In (formatSymbol symbol) (case_variants "btc") ->
   faSymbol symbol = "btc"%string) /\
  (~ In (formatSymbol symbol) (case_variants "eth") ->
   ~ In (formatSymbol symbol) (case_variants "btc") ->
   faSymbol symbol = EmptyString).
Proof.
  unfold faSymbol.
  rewrite <- !toLowerCase_case_variants by reflexivity.
  destruct (String.eqb_spec (toLowerCase (formatSymbol symbol)) "eth") as [->|Hn].
  - split; [reflexivity|]. split; [discriminate | congruence].
  - destruct (String.eqb_spec (toLowerCase (formatSymbol symbol)) "btc") as [->|Hb].
    + split; [discriminate|]. split; [reflexivity | congruence].
    + split; [congruence|]. split; [congruence | reflexivity].
Qed.

Lemma faSymbol_case_variants_witness :
  faSymbol "BINANCE:EthUSDT" = "ethereum"%string.
Proof.
  apply (proj1 (faSymbol_case_variants "BINANCE:EthUSDT")).
  vm_compute. tauto.
Defined.

End DisplayHelpers.

(* ================================================================== *)
(** * Values and the Map                                               *)
(* ================================================================== *)

Section MapFacts.

Lemma number_eqb_true_iff x y :
  number_eqb true x y = true <->
  key_class (VNumber x) = key_class (VNumber y).
Proof.
  destruct x as [a|a| |a m e], y as [b|b| |b m' e']; cbn;
    try (intuition congruence).
  - destruct a, b; cbn; intuition congruence.
  - rewrite !andb_true_iff, Pos.eqb_eq, Z.eqb_eq.
    destruct a, b; cbn; intuition congruence.
Qed.

Lemma SameValueZero_class x y :
  SameValueZero x y = true <-> key_class x = key_class y.
Proof.
  destruct x as [| |a|a|a|a ?|a ?], y as [| |b|b|b|b ?|b ?];
    try (cbn; intuition congruence);
    try (destruct b as [?|?| |? ? ?]; cbn; intuition congruence);
    try (destruct a as [?|?| |? ? ?]; cbn; intuition congruence).
  - destruct a, b; cbn; intuition congruence.
  - apply number_eqb_true_iff.
  - unfold SameValueZero; cbn. rewrite String.eqb_eq. intuition congruence.
  - unfold SameValueZero; cbn. rewrite Nat.eqb_eq. intuition congruence.
  - unfold SameValueZero; cbn. rewrite Nat.eqb_eq. intuition congruence.
Qed.

Lemma SameValueZero_refl x : SameValueZero x x = true.
Proof. apply SameValueZero_class. reflexivity. Qed.

Lemma SameValueZero_congr x y z :
  SameValueZero x y = true -> SameValueZero x z = SameValueZero y z.
Proof.
  intros H. apply SameValueZero_class in H.
  destruct (SameValueZero x z) eqn:E1, (SameValueZero y z) eqn:E2; try reflexivity.
  - apply SameValueZero_class in E1.
    assert (SameValueZero y z = true) by (apply SameValueZero_class; congruence).
    congruence.
  - apply SameValueZero_class in E2.
    assert (SameValueZero x z = true) by (apply SameValueZero_class; congruence).
    congruence.
Qed.

Lemma key_class_canonical k : key_class (canonical_key k) = key_class k.
Proof. destruct k as [| | |[]| | |]; reflexivity. Qed.

Lemma SameValueZero_canonical k : SameValueZero (canonical_key k) k = true.
Proof. apply SameValueZero_class, key_class_canonical. Qed.

Lemma SameValueZero_string sym v :
  SameValueZero (VString sym) v = true -> v = VString sym.
Proof.
  destruct v; cbn; try discriminate. unfold SameValueZero; cbn.
  rewrite String.eqb_eq. congruence.
Qed.

(** Reading the store after a [set]: the key that was set (or any key
    of its class) has the new value, every other key has what it had. *)
Lemma Map_get_set k v k' m :
  Map_get k' (Map_set k v m) =
  if SameValueZero k k' then Some v else Map_get k' m.
Proof.
  induction m as [|[k0 v0] m IH]; cbn [Map_set Map_get].
  - rewrite (SameValueZero_congr _ _ k' (SameValueZero_canonical k)). reflexivity.
  - destruct (SameValueZero k0 k) eqn:E; cbn [Map_get].
    + rewrite (SameValueZero_congr _ _ k' E).
      destruct (SameValueZero k k'); reflexivity.
    + rewrite IH. destruct (SameValueZero k0 k') eqn:E0; [|reflexivity].
      destruct (SameValueZero k k') eqn:E1; [|reflexivity].
      exfalso. apply SameValueZero_class in E0, E1.
      assert (SameValueZero k0 k = true) by (apply SameValueZero_class; congruence).
      congruence.
Qed.

Lemma Map_set_keyed k quote m :
  Get quote "s" = Normal k ->
  keyed_by_symbol m -> keyed_by_symbol (Map_set k quote m).
Proof.
  intros Hq. induction m as [|[k0 v0] m IH]; intros Hm k1 q1; cbn [Map_set].
  - intros [[= <- <-]|[]]. exists k. split; [exact Hq|apply SameValueZero_canonical].
  - assert (Hm' : keyed_by_symbol m) by (intros ? ? ?; apply Hm; right; assumption).
    destruct (SameValueZero k0 k) eqn:E.
    + intros [[= <- <-]|Hin]; [eauto | apply Hm; right; exact Hin].
    + intros [[= <- <-]|Hin]; [apply Hm; left; reflexivity | apply IH; assumption].
Qed.

End MapFacts.

(* ================================================================== *)
(** * The message handler                                              *)
(* ================================================================== *)

Section MessageHandler.
Local Open Scope string_scope.

Lemma bind_run {A B} (m : M A) (k : A -> M B) st :
  (m ≫= k) st =
  match m st with
  | (Normal a, st') => k a st'
  | (Throw e, st') => (Throw e, st')
  end.
Proof. reflexivity. Qed.

Lemma Get_record quote : is_record quote = true -> Get quote "s" = Normal (symbol_of quote).
Proof.
  unfold symbol_of.
  destruct quote; cbn; try discriminate; try reflexivity.
  destruct (assoc "s" props); reflexivity.
Qed.

(** The loop of the trade branch over an array of records. *)
Lemma for_each_upserts records st :
  forallb is_record records = true ->
  for_each (fun quote => s ← lift (Get quote "s"); quotes_set s quote) records st =
  (Normal tt, with_quotes (upsert_all records (quotes st)) st).
Proof.
  revert st. induction records as [|q records IH]; intros st Hall.
  - destruct st; reflexivity.
  - cbn [forallb] in Hall. apply andb_prop in Hall as [Hq Hall].
    cbn [for_each]. rewrite bind_run, bind_run. unfold lift at 1.
    rewrite (Get_record q Hq). unfold quotes_set at 1.
    rewrite IH by exact Hall. reflexivity.
Qed.

Lemma IsStrictlyEqual_string v t :
  IsStrictlyEqual v (VString t) = true <-> v = VString t.
Proof.
  destruct v; cbn; try (intuition congruence).
  unfold IsStrictlyEqual; cbn. rewrite String.eqb_eq. intuition congruence.
Qed.

Lemma IsStrictlyEqual_string_false v t :
  v <> VString t -> IsStrictlyEqual v (VString t) = false.
Proof.
  intros H. destruct (IsStrictlyEqual v (VString t)) eqn:E; [|reflexivity].
  apply IsStrictlyEqual_string in E. contradiction.
Qed.

(** The [type] the handler switches on, for a frame that passes the
    test [if (response)]. *)
Lemma Get_type response :
  ToBoolean response = true ->
  exists type, Get response "type" = Normal type /\
    forall t, type = VString t <-> frame_type response = Some t.
Proof.
  destruct response as [| |b|n|x|?|? props]; cbn; try discriminate; intros _;
    try (exists VUndefined; split; [reflexivity|]; intros; split; discriminate).
  destruct (assoc "type" props) as [v|]; cbn.
  - exists v. split; [reflexivity|]. intros t.
    destruct v; split; intros H; try discriminate; congruence.
  - exists VUndefined. split; [reflexivity|]. intros; split; discriminate.
Qed.

Lemma frame_type_truthy response t :
  frame_type response = Some t -> ToBoolean response = true.
Proof. destruct response; cbn; try discriminate; reflexivity. Qed.

Lemma handler_trade st event response ref records :
  data event = Normal response ->
  frame_type response = Some "trade" ->
  Get response "data" = Normal (VArray ref records) ->
  forallb is_record records = true ->
  realTimeQuoteResponseHandler event st =
  (Normal tt, with_quotes (upsert_all records (quotes st)) st).
Proof.
  intros Hdata Htype Hrec Hall. pose proof (frame_type_truthy _ _ Htype) as Hb.
  destruct (Get_type response Hb) as (type & Hget & Hty).
  apply Hty in Htype. subst type.
  unfold realTimeQuoteResponseHandler. rewrite Hdata.
  rewrite bind_run. cbn [JSON_parse lift]. rewrite Hb.
  rewrite bind_run. unfold lift at 1. rewrite Hget.
  change (IsStrictlyEqual (VString "trade") (VString "error")) with false.
  change (IsStrictlyEqual (VString "trade") (VString "trade")) with true.
  cbv iota. rewrite bind_run. unfold lift at 1. rewrite Hrec.
  cbn [forEach]. apply for_each_upserts, Hall.
Qed.

(** A trade frame whose [data] is no array makes the handler throw
    before it has touched the state. *)
Lemma handler_trade_malformed st event response :
  data event = Normal response ->
  frame_type response = Some "trade" ->
  (forall ref records, Get response "data" <> Normal (VArray ref records)) ->
  realTimeQuoteResponseHandler event st = (Throw TypeError, st).
Proof.
  intros Hdata Htype Hrec. pose proof (frame_type_truthy _ _ Htype) as Hb.
  destruct (Get_type response Hb) as (type & Hget & Hty).
  apply Hty in Htype. subst type.
  unfold realTimeQuoteResponseHandler. rewrite Hdata.
  rewrite bind_run. cbn [JSON_parse lift]. rewrite Hb.
  rewrite bind_run. unfold lift at 1. rewrite Hget.
  change (IsStrictlyEqual (VString "trade") (VString "error")) with false.
  change (IsStrictlyEqual (VString "trade") (VString "trade")) with true.
  cbv iota. rewrite bind_run. unfold lift at 1.
  destruct (Get response "data") as [[| | | | |ref records|]|e] eqn:E;
    try reflexivity.
  - exfalso. exact (Hrec ref records eq_refl).
  - destruct response; cbn in E; try discriminate.
    destruct (assoc "data" props); discriminate.
Qed.

Lemma handler_error st event response :
  data event = Normal response ->
  frame_type response = Some "error" ->
  realTimeQuoteResponseHandler event st =
  (Normal tt, with_console (console st ++ [response]) st).
Proof.
  intros Hdata Htype. pose proof (frame_type_truthy _ _ Htype) as Hb.
  destruct (Get_type response Hb) as (type & Hget & Hty).
  apply Hty in Htype. subst type.
  unfold realTimeQuoteResponseHandler. rewrite Hdata.
  rewrite bind_run. cbn [JSON_parse lift]. rewrite Hb.
  rewrite bind_run. unfold lift. rewrite Hget. reflexivity.
Qed.

Lemma handler_other st event response :
  data event = Normal response ->
  frame_type response <> Some "error" ->
  frame_type response <> Some "trade" ->
  realTimeQuoteResponseHandler event st = (Normal tt, st).
Proof.
  intros Hdata Hne Hnt.
  unfold realTimeQuoteResponseHandler. rewrite Hdata.
  rewrite bind_run. cbn [JSON_parse lift].
  destruct (ToBoolean response) eqn:Hb; [|reflexivity].
  destruct (Get_type response Hb) as (type & Hget & Hty).
  rewrite bind_run. unfold lift. rewrite Hget.
  rewrite !IsStrictlyEqual_string_false; [reflexivity | |];
    intros ->; [apply Hnt | apply Hne]; apply Hty; reflexivity.
Qed.


(** C1.  A frame of type ["trade"] whose [data] is an array of records
    makes the handler return normally with every record upserted into
    the store under its symbol field [s], in the order of the array.
    Reading the key that was set gives the new record itself, so no
    field of an older quote survives, and no other key is touched.  Two
    trade frames for AAPL in a row leave exactly one entry, under
    ["AAPL"], holding the second record. *)
Theorem trade_frame_upserts
    (st : State) (event : MessageEvent) (response : value)
    (ref : nat) (records : list value)
    (Hdata : data event = Normal response)
    (Htype : frame_type response = Some "trade"%string)
    (Hrecords : Get response "data" = Normal (VArray ref records))
    (Hall : forallb is_record records = true) :
  realTimeQuoteResponseHandler event st =
    (Normal tt, with_quotes (upsert_all records (quotes st)) st) /\
  (forall k quote m, Map_get k (Map_set k quote m) = Some quote) /\
  (forall k k' quote m,
      SameValueZero k k' = false ->
      Map_get k' (Map_set k quote m) = Map_get k' m) /\
  quotes
    (run (realTimeQuoteResponseHandler
            (message (trade_frame [aapl_quote 2 "150.25" "10" "1700000000000"])) ;;
          realTimeQuoteResponseHandler
            (message (trade_frame [aapl_quote 3 "151.00" "7" "1700000001000"])))
       initial)
  = [(VString "AAPL", aapl_quote 3 "151.00" "7" "1700000001000")].
Proof.
  split; [eapply handler_trade; eassumption|].
  split; [intros; rewrite Map_get_set, SameValueZero_refl; reflexivity|].
  split; [intros k k' quote m E; rewrite Map_get_set, E; reflexivity|].
  reflexivity.
Qed.

Lemma trade_frame_upserts_witness :
  realTimeQuoteResponseHandler
    (message (trade_frame [aapl_quote 2 "150.25" "10" "1700000000000"])) initial
  = (Normal tt,
     with_quotes [(VString "AAPL", aapl_quote 2 "150.25" "10" "1700000000000")] initial).
Proof.
  apply (trade_frame_upserts initial
           (message (trade_frame [aapl_quote 2 "150.25" "10" "1700000000000"]))
           (trade_frame [aapl_quote 2 "150.25" "10" "1700000000000"])
           1 [aapl_quote 2 "150.25" "10" "1700000000000"]);
    reflexivity.
Defined.

(** C2.  A frame of type ["error"], and a frame of any type other than
    ["trade"] and ["error"] (a frame without a type, or one that is no
    object at all, included), makes the handler return normally and
    leaves the store as it is: the error frame is printed by
    [console.error], the other frames change nothing at all. *)
Theorem error_and_unknown_frames
    (st : State) (event : MessageEvent) (response : value)
    (Hdata : data event = Normal response)
    (Htype : frame_type response <> Some "trade"%string) :
  fst (realTimeQuoteResponseHandler event st) = Normal tt /\
  quotes (snd (realTimeQuoteResponseHandler event st)) = quotes st /\
  (frame_type response = Some "error"%string ->
   realTimeQuoteResponseHandler event st =
     (Normal tt, with_console (console st ++ [response]) st)) /\
  (frame_type response <> Some "error"%string ->
   realTimeQuoteResponseHandler event st = (Normal tt, st)).
Proof.
  assert (He : frame_type response = Some "error"%string \/
               frame_type response <> Some "error"%string).
  { destruct (frame_type response) as [t|]; [|right; discriminate].
    destruct (String.eqb_spec t "error") as [->|]; [left|right]; congruence. }
  destruct He as [He|He].
  - rewrite (handler_error st event response Hdata He).
    repeat split. intros Hn. contradiction.
  - rewrite (handler_other st event response Hdata He Htype).
    repeat split. intros Hn. contradiction.
Qed.

Lemma error_and_unknown_frames_witness :
  realTimeQuoteResponseHandler
    (message (VObject 0 [("msg", VString "Invalid token"); ("type", VString "error")]))
    initial
  = (Normal tt,
     with_console
       [VObject 0 [("msg", VString "Invalid token"); ("type", VString "error")]]
       initial).
Proof.
  refine (proj1 (proj2 (proj2
    (error_and_unknown_frames initial
       (message (VObject 0 [("msg", VString "Invalid token"); ("type", VString "error")]))
       (VObject 0 [("msg", VString "Invalid token"); ("type", VString "error")])
       eq_refl _))) eq_refl).
  discriminate.
Defined.

End MessageHandler.

(* ================================================================== *)
(** * The streaming session                                            *)
(* ================================================================== *)

Section Session.
Local Open Scope string_scope.

Lemma guard_defined {A} (ws : WebSocket) (a b : A) :
  (if decide (Some ws <> None) then a else b) = a.
Proof.
  destruct (decide (Some ws <> None)) as [|n]; [reflexivity|].
  exfalso. apply n. discriminate.
Qed.

Lemma guard_undefined {A} (a b : A) :
  (if decide (@None WebSocket <> None) then a else b) = b.
Proof.
  destruct (decide (@None WebSocket <> None)) as [n|]; [|reflexivity].
  exfalso. apply n. reflexivity.
Qed.

Lemma subscribe_guarded symbol : subscribe symbol = guarded_send (subscribe_frame symbol).
Proof. reflexivity. Qed.

Lemma unsubscribe_guarded symbol :
  unsubscribe symbol = guarded_send (unsubscribe_frame symbol).
Proof. reflexivity. Qed.

Lemma guarded_send_undefined frame st :
  socket st = None -> guarded_send frame st = (Normal tt, st).
Proof.
  intros H. unfold guarded_send. rewrite bind_run. unfold socket_value.
  rewrite H, guard_undefined. reflexivity.
Qed.

Lemma guarded_send_defined frame st ws :
  socket st = Some ws ->
  guarded_send frame st =
  match readyState ws with
  | CONNECTING => (Throw InvalidStateError, st)
  | OPEN => (Normal tt, with_socket (with_sent (sent ws ++ [frame]) ws) st)
  | CLOSING | CLOSED => (Normal tt, st)
  end.
Proof.
  destruct st as [q sv d c]. cbn [socket]. intros ->.
  unfold guarded_send. rewrite bind_run. unfold socket_value. cbn [socket].
  rewrite guard_defined. unfold on_socket, send. cbn [socket].
  destruct ws as [u r ls fs]. cbn [readyState]. destruct r; reflexivity.
Qed.

Lemma guarded_send_open frame st ws :
  socket st = Some ws -> readyState ws = OPEN ->
  guarded_send frame st =
  (Normal tt, with_socket (with_sent (sent ws ++ [frame]) ws) st).
Proof. intros H Hr. rewrite (guarded_send_defined _ _ _ H), Hr. reflexivity. Qed.

(** [subscribe] and [unsubscribe] by the state of the connection. *)
Lemma subscribe_no_connection symbol st :
  socket st = None ->
  subscribe symbol st = (Normal tt, st) /\ unsubscribe symbol st = (Normal tt, st).
Proof.
  intros H. rewrite subscribe_guarded, unsubscribe_guarded.
  split; apply guarded_send_undefined, H.
Qed.

Lemma subscribe_connected symbol st ws :
  socket st = Some ws -> readyState ws = OPEN ->
  subscribe symbol st =
    (Normal tt, with_socket (with_sent (sent ws ++ [subscribe_frame symbol]) ws) st) /\
  unsubscribe symbol st =
    (Normal tt, with_socket (with_sent (sent ws ++ [unsubscribe_frame symbol]) ws) st).
Proof.
  intros H Hr. rewrite subscribe_guarded, unsubscribe_guarded.
  split; apply guarded_send_open; assumption.
Qed.

Lemma subscribe_connecting symbol st ws :
  socket st = Some ws -> readyState ws = CONNECTING ->
  subscribe symbol st = (Throw InvalidStateError, st) /\
  unsubscribe symbol st = (Throw InvalidStateError, st).
Proof.
  intros H Hr. rewrite subscribe_guarded, unsubscribe_guarded.
  rewrite !(guarded_send_defined _ _ _ H), Hr. split; reflexivity.
Qed.

Lemma subscribe_closing symbol st ws :
  socket st = Some ws -> readyState ws = CLOSING \/ readyState ws = CLOSED ->
  subscribe symbol st = (Normal tt, st) /\ unsubscribe symbol st = (Normal tt, st).
Proof.
  intros H Hr. rewrite subscribe_guarded, unsubscribe_guarded.
  rewrite !(guarded_send_defined _ _ _ H).
  destruct Hr as [-> | ->]; split; reflexivity.
Qed.

(** The batch of [subscribeHandler] on an open connection. *)
Lemma subscribeHandler_open st ws :
  socket st = Some ws -> readyState ws = OPEN ->
  subscribeHandler st =
  (Normal tt,
   with_socket (with_sent (sent ws ++ List.map subscribe_frame preset_symbols) ws) st).
Proof.
  intros H Hr. unfold subscribeHandler.
  repeat (rewrite bind_run, subscribe_guarded;
          erewrite guarded_send_open by (cbn; first [exact H | exact Hr | reflexivity])).
  rewrite subscribe_guarded.
  erewrite guarded_send_open by (cbn; first [exact H | exact Hr | reflexivity]).
  destruct st, ws; cbn. rewrite <- !app_assoc. reflexivity.
Qed.

Lemma has_fragment_app a b : has_fragment (a ++ b) = has_fragment a || has_fragment b.
Proof.
  unfold has_fragment. induction a as [|c a IH]; cbn; [reflexivity|].
  rewrite IH. apply orb_assoc.
Qed.

(** [start] throws on a token with a [#] and before it has done
    anything; on any other token it installs a fresh connection. *)
Lemma start_run token st :
  start token st =
  if has_fragment token then (Throw SyntaxError, st)
  else (Normal tt, started token st).
Proof.
  unfold start. rewrite bind_run. unfold lift, new_WebSocket.
  rewrite has_fragment_app. change (has_fragment "wss://ws.finnhub.io?token=") with false.
  cbn [orb]. destruct (has_fragment token); reflexivity.
Qed.

(** The open event of the current connection, while it is still being
    established and [subscribeHandler] is its listener. *)
Lemma step_open_connecting st ws :
  socket st = Some ws -> readyState ws = CONNECTING ->
  callbacks "open" ws = ["subscribeHandler"] ->
  step (Open Current) st =
  with_socket
    (with_sent (sent ws ++ List.map subscribe_frame preset_symbols)
       (with_readyState OPEN ws))
    st.
Proof.
  intros H Hr Hcb. cbn [step target]. rewrite H, Hr, Hcb.
  cbn [dispatch fold_left]. change (invoke "subscribeHandler" no_data) with subscribeHandler.
  unfold run. erewrite subscribeHandler_open by (cbn; reflexivity).
  destruct st, ws; reflexivity.
Qed.

Lemma step_open_started token st :
  step (Open Current) (started token st) =
  with_socket
    (with_sent (List.map subscribe_frame preset_symbols)
       (with_readyState OPEN (connection token)))
    (started token st).
Proof.
  cbn [step target started socket connection readyState].
  change (callbacks "open" _) with ["subscribeHandler"].
  cbn [dispatch fold_left]. change (invoke "subscribeHandler" no_data) with subscribeHandler.
  unfold run.
  erewrite subscribeHandler_open by (cbn; reflexivity).
  reflexivity.
Qed.

(** A connection that a second [start] has replaced: when it opens,
    [subscribeHandler] meets the new connection, which is not open yet,
    and no frame is sent on either. *)
Example open_of_replaced_connection :
  let st := steps [ClickStart "a"; ClickStart "b"; Open (Detached 0)] initial in
  List.map sent (detached st) = [[]] /\
  (sent <$> socket st) = Some [] /\
  (readyState <$> socket st) = Some CONNECTING.
Proof. repeat split. Qed.

Lemma deregistered_idem ls : deregistered (deregistered ls) = deregistered ls.
Proof.
  unfold deregistered.
  induction ls as [|l ls IH]; [reflexivity|].
  cbn [List.filter].
  destruct (negb (listener_eqb ("message", "realTimeQuoteResponseHandler") l)) eqn:Em;
    [|exact IH].
  cbn [List.filter].
  destruct (negb (listener_eqb ("open", "subscribeHandler") l)) eqn:Eo; [|exact IH].
  cbn [List.filter]. rewrite Em. cbn [List.filter]. rewrite Eo. f_equal. exact IH.
Qed.

Lemma after_close_idem r : after_close (after_close r) = after_close r.
Proof. destruct r; reflexivity. Qed.

Lemma stopped_idem ws : stopped (stopped ws) = stopped ws.
Proof.
  unfold stopped. cbn [url readyState listeners sent].
  rewrite deregistered_idem, after_close_idem. reflexivity.
Qed.

(** [stop] in one step: nothing without a connection, otherwise the
    listeners are gone and the connection is closing or closed. *)
Lemma stop_run st :
  stop st =
  (Normal tt,
   match socket st with
   | Some ws => with_socket (stopped ws) st
   | None => st
   end).
Proof.
  unfold stop. rewrite bind_run. unfold socket_value.
  destruct (socket st) as [ws|] eqn:H.
  - rewrite guard_defined. rewrite !bind_run. unfold on_socket at 1. rewrite H.
    cbn [removeEventListener]. unfold on_socket at 1. cbn [socket removeEventListener].
    unfold on_socket, close. cbn [socket readyState url listeners sent].
    unfold with_socket, stopped. destruct (readyState ws); reflexivity.
  - rewrite guard_undefined. reflexivity.
Qed.


(** C6.  After [start token] has returned, the open event of the new
    connection makes the session send the subscribe frames of AAPL,
    GME, TSLA, SHOP, BINANCE:BTCUSDT, BINANCE:ETHUSDT, BINANCE:ADAUSDT
    and BINANCE:SOLUSDT, in this order, on that connection, and nothing
    else: these are all the frames of the connection, and no other
    connection, nor the store, changes.  The same batch follows the
    open event of the current connection in any state in which that
    connection is still being established and [subscribeHandler] is its
    listener. *)
Theorem open_sends_preset_batch
    (st st' : State) (token : string)
    (Hstart : start token st = (Normal tt, st')) :
  (exists ws : WebSocket,
     socket st' = Some ws /\ readyState ws = CONNECTING /\ sent ws = [] /\
     step (Open Current) st' =
       with_socket
         (with_sent (List.map subscribe_frame preset_symbols) (with_readyState OPEN ws))
         st') /\
  List.map subscribe_frame preset_symbols =
    List.map subscribe_text
      ["AAPL"; "GME"; "TSLA"; "SHOP";
       "BINANCE:BTCUSDT"; "BINANCE:ETHUSDT"; "BINANCE:ADAUSDT"; "BINANCE:SOLUSDT"] /\
  (forall (st0 : State) (ws : WebSocket),
     socket st0 = Some ws -> readyState ws = CONNECTING ->
     callbacks "open" ws = ["subscribeHandler"] ->
     step (Open Current) st0 =
       with_socket
         (with_sent (sent ws ++ List.map subscribe_frame preset_symbols)
            (with_readyState OPEN ws))
         st0).
Proof.
  rewrite start_run in Hstart.
  destruct (has_fragment token); [discriminate|].
  injection Hstart as <-.
  split; [|split; [reflexivity | exact step_open_connecting]].
  exists (connection token).
  split; [reflexivity|]. split; [reflexivity|]. split; [reflexivity|].
  apply step_open_started.
Qed.

Lemma open_sends_preset_batch_witness :
  exists ws : WebSocket,
    socket (step (Open Current) (run (start "token") initial)) = Some ws /\
    sent ws = List.map subscribe_frame preset_symbols.
Proof.
  destruct (open_sends_preset_batch initial (run (start "token") initial) "token" eq_refl)
    as ((ws & _ & _ & _ & Hstep) & _).
  rewrite Hstep. eexists. split; reflexivity.
Defined.

(** C7 at the input where the code breaks it: between [start] and the
    open event the connection exists and is not open yet; [subscribe]
    and [unsubscribe] get past their guard and [send] throws an
    InvalidStateError. *)
Theorem subscribe_throws_while_connecting :
  subscribe "AAPL" (run (start "token") initial) =
    (Throw InvalidStateError, run (start "token") initial) /\
  unsubscribe "AAPL" (run (start "token") initial) =
    (Throw InvalidStateError, run (start "token") initial).
Proof. split; reflexivity. Qed.

(** C8.  [stop] returns normally and leaves the store as it is.
    Without a connection it changes nothing, and a second [stop] right
    after a first changes nothing and returns normally. *)
Theorem stop_keeps_quotes (st : State) :
  fst (stop st) = Normal tt /\
  quotes (snd (stop st)) = quotes st /\
  (socket st = None -> stop st = (Normal tt, st)) /\
  stop (snd (stop st)) = (Normal tt, snd (stop st)).
Proof.
  rewrite !stop_run. cbn [fst snd].
  split; [reflexivity|].
  split; [destruct (socket st); reflexivity|].
  split; [intros ->; reflexivity|].
  f_equal.
  destruct (socket st) as [ws|] eqn:H; cbn [with_socket socket].
  - rewrite stopped_idem. reflexivity.
  - rewrite H. reflexivity.
Qed.

Lemma stop_keeps_quotes_witness : stop initial = (Normal tt, initial).
Proof. apply (proj1 (proj2 (proj2 (stop_keeps_quotes initial)))). reflexivity. Defined.

End Session.

(* ================================================================== *)
(** * What the operations keep                                         *)
(* ================================================================== *)

Section Keeps.
Variable R : State -> State -> Prop.
Hypothesis R_refl : forall st, R st st.
Hypothesis R_trans : forall a b c, R a b -> R b c -> R a c.

Lemma keeps_ret {A} (a : A) : keeps R (mret a).
Proof. intros st. apply R_refl. Qed.

Lemma keeps_lift {A} (c : Completion A) : keeps R (lift c).
Proof. intros st. apply R_refl. Qed.

Lemma keeps_socket_value : keeps R socket_value.
Proof. intros st. apply R_refl. Qed.

Lemma keeps_bind {A B} (m : M A) (k : A -> M B) :
  keeps R m -> (forall a, keeps R (k a)) -> keeps R (m ≫= k).
Proof.
  intros Hm Hk st. rewrite bind_run. specialize (Hm st).
  destruct (m st) as [[a|e] st']; cbn [snd] in *; [|exact Hm].
  eapply R_trans; [exact Hm | apply Hk].
Qed.

Lemma keeps_for_each (f : value -> M unit) xs :
  (forall x, keeps R (f x)) -> keeps R (for_each f xs).
Proof.
  intros Hf. induction xs as [|x xs IH]; cbn [for_each].
  - apply keeps_ret.
  - apply keeps_bind; [apply Hf | intros _; exact IH].
Qed.

Lemma keeps_forEach a (f : value -> M unit) :
  (forall x, keeps R (f x)) -> keeps R (forEach a f).
Proof.
  intros Hf. destruct a; cbn [forEach]; try apply keeps_lift.
  apply keeps_for_each, Hf.
Qed.

End Keeps.

Section Invariant.
Local Open Scope string_scope.

Lemma same_quotes_refl st : same_quotes st st.
Proof. reflexivity. Qed.

Lemma same_quotes_trans a b c : same_quotes a b -> same_quotes b c -> same_quotes a c.
Proof. unfold same_quotes. congruence. Qed.

Lemma still_keyed_refl st : still_keyed st st.
Proof. intros H. exact H. Qed.

Lemma still_keyed_trans a b c : still_keyed a b -> still_keyed b c -> still_keyed a c.
Proof. unfold still_keyed. auto. Qed.

Lemma same_quotes_still_keyed st st' : same_quotes st st' -> still_keyed st st'.
Proof. unfold same_quotes, still_keyed. intros ->. auto. Qed.

Lemma keeps_weaken {A} (m : M A) : keeps same_quotes m -> keeps still_keyed m.
Proof. intros H st. apply same_quotes_still_keyed, H. Qed.

Lemma on_socket_same_quotes {A} (f : WebSocket -> Completion A * WebSocket) :
  keeps same_quotes (on_socket f).
Proof.
  intros st. unfold on_socket. destruct (socket st) as [ws|]; [|reflexivity].
  destruct (f ws). reflexivity.
Qed.

Lemma guarded_send_same_quotes frame : keeps same_quotes (guarded_send frame).
Proof.
  unfold guarded_send.
  apply keeps_bind;
    [exact same_quotes_trans | apply keeps_socket_value, same_quotes_refl | intros sv].
  destruct (decide (sv <> None)).
  - apply on_socket_same_quotes.
  - apply keeps_ret, same_quotes_refl.
Qed.

Lemma subscribeHandler_same_quotes : keeps same_quotes subscribeHandler.
Proof.
  unfold subscribeHandler.
  repeat (apply keeps_bind;
          [exact same_quotes_trans | apply guarded_send_same_quotes | intros _]).
  apply guarded_send_same_quotes.
Qed.

Lemma start_same_quotes token : keeps same_quotes (start token).
Proof.
  intros st. rewrite start_run. destruct (has_fragment token); reflexivity.
Qed.

Lemma stop_same_quotes : keeps same_quotes stop.
Proof. intros st. rewrite stop_run. destruct (socket st); reflexivity. Qed.

(** One turn of the loop of the trade branch. *)
Lemma upsert_still_keyed quote :
  keeps still_keyed (s ← lift (Get quote "s"); quotes_set s quote).
Proof.
  intros st. rewrite bind_run. unfold lift.
  destruct (Get quote "s") as [s|e] eqn:E; cbn [snd]; [|apply still_keyed_refl].
  intros H. cbn. apply Map_set_keyed; assumption.
Qed.

Lemma handler_still_keyed event : keeps still_keyed (realTimeQuoteResponseHandler event).
Proof.
  pose proof still_keyed_refl as Hr. pose proof still_keyed_trans as Ht.
  unfold realTimeQuoteResponseHandler.
  apply keeps_bind; [exact Ht | apply keeps_lift, Hr | intros response].
  destruct (ToBoolean response); [|apply keeps_ret, Hr].
  apply keeps_bind; [exact Ht | apply keeps_lift, Hr | intros type].
  destruct (IsStrictlyEqual type (VString "error")).
  { apply keeps_weaken. intros st. reflexivity. }
  destruct (IsStrictlyEqual type (VString "trade")); [|apply keeps_ret, Hr].
  apply keeps_bind; [exact Ht | apply keeps_lift, Hr | intros trade_data].
  apply keeps_forEach; [exact Hr | exact Ht | apply upsert_still_keyed].
Qed.

Lemma invoke_still_keyed cb event : keeps still_keyed (invoke cb event).
Proof.
  unfold invoke. destruct (String.eqb cb "subscribeHandler").
  - apply keeps_weaken, subscribeHandler_same_quotes.
  - destruct (String.eqb cb "realTimeQuoteResponseHandler").
    + apply handler_still_keyed.
    + apply keeps_ret, still_keyed_refl.
Qed.

Lemma dispatch_still_keyed cbs event st : still_keyed st (dispatch cbs event st).
Proof.
  revert st. induction cbs as [|cb cbs IH]; intros st; cbn [dispatch fold_left].
  - apply still_keyed_refl.
  - eapply still_keyed_trans; [apply (invoke_still_keyed cb event st) | apply IH].
Qed.

Lemma set_target_same_quotes t ws st : same_quotes st (set_target t ws st).
Proof. destruct t; reflexivity. Qed.

(** Every step of the event loop keeps the store keyed by symbol. *)
Lemma step_still_keyed e st : still_keyed st (step e st).
Proof.
  destruct e as [token| |symbol|symbol|t|t event|t]; cbn [step].
  - apply same_quotes_still_keyed, start_same_quotes.
  - apply same_quotes_still_keyed, stop_same_quotes.
  - apply same_quotes_still_keyed, (guarded_send_same_quotes (subscribe_frame symbol)).
  - apply same_quotes_still_keyed, (guarded_send_same_quotes (unsubscribe_frame symbol)).
  - destruct (target t st) as [ws|]; [|apply still_keyed_refl].
    destruct (readyState ws); try apply still_keyed_refl.
    eapply still_keyed_trans; [|apply dispatch_still_keyed].
    apply same_quotes_still_keyed, set_target_same_quotes.
  - destruct (target t st) as [ws|]; [|apply still_keyed_refl].
    destruct (readyState ws); try apply still_keyed_refl.
    apply dispatch_still_keyed.
  - destruct (target t st) as [ws|]; [|apply still_keyed_refl].
    destruct (readyState ws); try apply still_keyed_refl;
      apply same_quotes_still_keyed, set_target_same_quotes.
Qed.

Lemma reachable_keyed st : reachable st -> keyed_by_symbol (quotes st).
Proof.
  induction 1 as [|e st Hr IH].
  - intros k quote [].
  - apply step_still_keyed, IH.
Qed.


(** C10.  In every state the script can reach, every entry of the quote
    store is keyed by the symbol field [s] of the quote it holds (an
    entry under the string [sym] holds a quote whose [s] is [sym]).
    Every step of the event loop keeps this; [start], [stop],
    [subscribe] and [unsubscribe] do not write to the store at all, and
    the message handler keeps it for every frame, also when it throws
    half-way through a frame. *)
Theorem quotes_keyed_by_symbol :
  (forall st, reachable st -> keyed_by_symbol (quotes st)) /\
  (forall st, reachable st ->
     forall sym quote, In (VString sym, quote) (quotes st) ->
       Get quote "s" = Normal (VString sym)) /\
  (forall e st, keyed_by_symbol (quotes st) -> keyed_by_symbol (quotes (step e st))) /\
  (forall token st, quotes (snd (start token st)) = quotes st) /\
  (forall st, quotes (snd (stop st)) = quotes st) /\
  (forall symbol st, quotes (snd (subscribe symbol st)) = quotes st) /\
  (forall symbol st, quotes (snd (unsubscribe symbol st)) = quotes st) /\
  (forall event st,
     keyed_by_symbol (quotes st) ->
     keyed_by_symbol (quotes (snd (realTimeQuoteResponseHandler event st)))).
Proof.
  split; [exact reachable_keyed|].
  split.
  { intros st Hr sym quote Hin.
    destruct (reachable_keyed st Hr _ _ Hin) as (s & Hs & Heq).
    apply SameValueZero_string in Heq. congruence. }
  split; [exact step_still_keyed|].
  split; [exact start_same_quotes|].
  split; [exact stop_same_quotes|].
  split; [intros symbol; exact (guarded_send_same_quotes (subscribe_frame symbol))|].
  split; [intros symbol; exact (guarded_send_same_quotes (unsubscribe_frame symbol))|].
  exact handler_still_keyed.
Qed.

Lemma quotes_keyed_by_symbol_witness :
  keyed_by_symbol
    (quotes
       (step (Message Current
                (message (trade_frame [aapl_quote 2 "150.25" "10" "1700000000000"])))
          (step (Open Current) (step (ClickStart "token") initial)))).
Proof.
  apply (proj1 quotes_keyed_by_symbol).
  repeat apply reachable_step. apply reachable_initial.
Defined.

End Invariant.

(* ================================================================== *)
(** * More on the quote store                                          *)
(* ================================================================== *)

Section StoreLaws.
Local Open Scope string_scope.


(** [set] leaves the keys where they are and adds a new key at the
    end. *)
Lemma Map_set_keys k v m :
  keys (Map_set k v m) =
  (keys m ++ match Map_get k m with Some _ => [] | None => [canonical_key k] end)%list.
Proof.
  unfold keys. induction m as [|[k0 v0] m IH]; cbn [Map_set Map_get List.map fst app].
  - reflexivity.
  - destruct (SameValueZero k0 k); cbn [List.map fst].
    + rewrite app_nil_r. reflexivity.
    + rewrite IH. reflexivity.
Qed.


Lemma upsert_all_get k records m :
  Map_get k (upsert_all records m) =
  match latest k records with
  | Some quote => Some quote
  | None => Map_get k m
  end.
Proof.
  unfold upsert_all. revert m.
  induction records as [|q records IH]; intros m; cbn [fold_left latest].
  - reflexivity.
  - rewrite IH. destruct (latest k records); [reflexivity|].
    rewrite Map_get_set. destruct (SameValueZero (symbol_of q) k); reflexivity.
Qed.

(** The loop of the trade branch stops at the first element that is no
    record, with the records before it upserted. *)
Lemma for_each_stops good bad rest st :
  forallb is_record good = true -> is_record bad = false ->
  for_each (fun quote => s ← lift (Get quote "s"); quotes_set s quote)
    (good ++ bad :: rest)%list st =
  (Throw TypeError, with_quotes (upsert_all good (quotes st)) st).
Proof.
  revert st. induction good as [|q good IH]; intros st Hgood Hbad.
  - cbn [app for_each]. rewrite bind_run, bind_run. unfold lift.
    destruct bad; try discriminate; destruct st; reflexivity.
  - cbn [forallb] in Hgood. apply andb_prop in Hgood as [Hq Hgood].
    cbn [app for_each]. rewrite bind_run, bind_run. unfold lift at 1.
    rewrite (Get_record q Hq). unfold quotes_set at 1.
    rewrite IH by assumption. reflexivity.
Qed.

End StoreLaws.

(** What a relation between the state before and the state after needs
    to hold across every step of the event loop: it only looks at the
    store, and [quotes.value.set] keeps it. *)
Section EveryStep.
Local Open Scope string_scope.
Variable R : State -> State -> Prop.
Hypothesis R_refl : forall st, R st st.
Hypothesis R_trans : forall a b c, R a b -> R b c -> R a c.
Hypothesis R_same : forall st st', same_quotes st st' -> R st st'.
Hypothesis R_set : forall k v st, R st (snd (quotes_set k v st)).

Lemma keeps_same {A} (m : M A) : keeps same_quotes m -> keeps R m.
Proof. intros H st. apply R_same, H. Qed.

Lemma handler_keeps event : keeps R (realTimeQuoteResponseHandler event).
Proof.
  unfold realTimeQuoteResponseHandler.
  apply keeps_bind; [exact R_trans | apply keeps_lift, R_refl | intros response].
  destruct (ToBoolean response); [|apply keeps_ret, R_refl].
  apply keeps_bind; [exact R_trans | apply keeps_lift, R_refl | intros type].
  destruct (IsStrictlyEqual type (VString "error")).
  { apply keeps_same. intros st. reflexivity. }
  destruct (IsStrictlyEqual type (VString "trade")); [|apply keeps_ret, R_refl].
  apply keeps_bind; [exact R_trans | apply keeps_lift, R_refl | intros trade_data].
  apply keeps_forEach; [exact R_refl | exact R_trans | intros quote].
  apply keeps_bind; [exact R_trans | apply keeps_lift, R_refl | intros k].
  intros st. apply R_set.
Qed.

Lemma dispatch_keeps cbs event st : R st (dispatch cbs event st).
Proof.
  revert st. induction cbs as [|cb cbs IH]; intros st; cbn [dispatch fold_left].
  - apply R_refl.
  - eapply R_trans; [|apply IH]. unfold run, invoke.
    destruct (String.eqb cb "subscribeHandler").
    + apply R_same, subscribeHandler_same_quotes.
    + destruct (String.eqb cb "realTimeQuoteResponseHandler").
      * apply handler_keeps.
      * apply R_refl.
Qed.

Lemma step_keeps e st : R st (step e st).
Proof.
  destruct e as [token| |symbol|symbol|t|t event|t]; cbn [step].
  - apply R_same, start_same_quotes.
  - apply R_same, stop_same_quotes.
  - apply R_same, (guarded_send_same_quotes (subscribe_frame symbol)).
  - apply R_same, (guarded_send_same_quotes (unsubscribe_frame symbol)).
  - destruct (target t st) as [ws|]; [|apply R_refl].
    destruct (readyState ws); try apply R_refl.
    eapply R_trans; [|apply dispatch_keeps].
    apply R_same, set_target_same_quotes.
  - destruct (target t st) as [ws|]; [|apply R_refl].
    destruct (readyState ws); try apply R_refl.
    apply dispatch_keeps.
  - destruct (target t st) as [ws|]; [|apply R_refl].
    destruct (readyState ws); try apply R_refl;
      apply R_same, set_target_same_quotes.
Qed.

Lemma steps_keeps es st : R st (steps es st).
Proof.
  unfold steps. revert st. induction es as [|e es IH]; intros st; cbn [fold_left].
  - apply R_refl.
  - eapply R_trans; [apply step_keeps | apply IH].
Qed.

End EveryStep.

Section StoreOverTime.
Local Open Scope string_scope.

Lemma keys_grow_refl st : keys_grow st st.
Proof. exists []. rewrite app_nil_r. reflexivity. Qed.

Lemma keys_grow_trans a b c : keys_grow a b -> keys_grow b c -> keys_grow a c.
Proof.
  intros [n1 H1] [n2 H2]. exists (n1 ++ n2)%list.
  rewrite H2, H1, app_assoc. reflexivity.
Qed.

Lemma keys_grow_same st st' : same_quotes st st' -> keys_grow st st'.
Proof. unfold same_quotes. intros H. exists []. rewrite H, app_nil_r. reflexivity. Qed.

Lemma keys_grow_set k v st : keys_grow st (snd (quotes_set k v st)).
Proof. cbn. eexists. apply Map_set_keys. Qed.







(** X2.  Nothing ever takes a key out of the quote store or moves it:
    after any events, [stop] and [unsubscribe] included, the store has
    the keys it had, in the same order, and new keys only after them. *)
Theorem store_keys_only_grow (es : list Event) (st : State) :
  exists new : list value,
    keys (quotes (steps es st)) = (keys (quotes st) ++ new)%list.
Proof.
  exact (steps_keeps keys_grow keys_grow_refl keys_grow_trans
           keys_grow_same keys_grow_set es st).
Qed.

(** X3.  After a trade frame, what the store holds under a key is the
    last record of the frame that goes under that key, and what it held
    before when the frame has no such record: within a frame, as across
    frames, the later record wins. *)
Theorem trade_frame_last_wins
    (st : State) (event : MessageEvent) (response : value)
    (ref : nat) (records : list value) (k : value)
    (Hdata : data event = Normal response)
    (Htype : frame_type response = Some "trade")
    (Hrecords : Get response "data" = Normal (VArray ref records))
    (Hall : forallb is_record records = true) :
  Map_get k (quotes (snd (realTimeQuoteResponseHandler event st))) =
  match latest k records with
  | Some quote => Some quote
  | None => Map_get k (quotes st)
  end.
Proof.
  rewrite (handler_trade st event response ref records Hdata Htype Hrecords Hall).
  cbn [snd with_quotes quotes]. apply upsert_all_get.
Qed.

Lemma trade_frame_last_wins_witness :
  Map_get (VString "AAPL")
    (quotes (snd (realTimeQuoteResponseHandler
       (message (trade_frame [aapl_quote 2 "150.25" "10" "1700000000000";
                              aapl_quote 3 "151.00" "7" "1700000001000"]))
       initial)))
  = Some (aapl_quote 3 "151.00" "7" "1700000001000").
Proof.
  apply (trade_frame_last_wins initial
           (message (trade_frame [aapl_quote 2 "150.25" "10" "1700000000000";
                                  aapl_quote 3 "151.00" "7" "1700000001000"]))
           (trade_frame [aapl_quote 2 "150.25" "10" "1700000000000";
                         aapl_quote 3 "151.00" "7" "1700000001000"])
           1
           [aapl_quote 2 "150.25" "10" "1700000000000";
            aapl_quote 3 "151.00" "7" "1700000001000"]
           (VString "AAPL"));
    reflexivity.
Defined.

(** X4.  A trade frame is not applied as a whole.  When an element of
    its [data] array is [null], the handler throws a TypeError at that
    element: the records before it are in the store, the records after
    it are not looked at. *)
Theorem trade_frame_stops_at_null
    (st : State) (event : MessageEvent) (response : value)
    (ref : nat) (good rest : list value) (bad : value)
    (Hdata : data event = Normal response)
    (Htype : frame_type response = Some "trade")
    (Hrecords : Get response "data" = Normal (VArray ref (good ++ bad :: rest)))
    (Hgood : forallb is_record good = true)
    (Hbad : is_record bad = false) :
  realTimeQuoteResponseHandler event st =
  (Throw TypeError, with_quotes (upsert_all good (quotes st)) st).
Proof.
  pose proof (frame_type_truthy _ _ Htype) as Hb.
  destruct (Get_type response Hb) as (type & Hget & Hty).
  apply Hty in Htype. subst type.
  unfold realTimeQuoteResponseHandler. rewrite Hdata.
  rewrite bind_run. cbn [JSON_parse lift]. rewrite Hb.
  rewrite bind_run. unfold lift at 1. rewrite Hget.
  change (IsStrictlyEqual (VString "trade") (VString "error")) with false.
  change (IsStrictlyEqual (VString "trade") (VString "trade")) with true.
  cbv iota. rewrite bind_run. unfold lift at 1. rewrite Hrecords.
  cbn [forEach]. apply for_each_stops; assumption.
Qed.

Lemma trade_frame_stops_at_null_witness :
  realTimeQuoteResponseHandler
    (message (trade_frame [aapl_quote 2 "150.25" "10" "1700000000000"; VNull;
                           aapl_quote 3 "151.00" "7" "1700000001000"]))
    initial
  = (Throw TypeError,
     with_quotes [(VString "AAPL", aapl_quote 2 "150.25" "10" "1700000000000")] initial).
Proof.
  apply (trade_frame_stops_at_null initial
           (message (trade_frame [aapl_quote 2 "150.25" "10" "1700000000000"; VNull;
                                  aapl_quote 3 "151.00" "7" "1700000001000"]))
           (trade_frame [aapl_quote 2 "150.25" "10" "1700000000000"; VNull;
                         aapl_quote 3 "151.00" "7" "1700000001000"])
           1 [aapl_quote 2 "150.25" "10" "1700000000000"]
           [aapl_quote 3 "151.00" "7" "1700000001000"] VNull);
    reflexivity.
Defined.

End StoreOverTime.

(* ================================================================== *)
(** * More on the session                                              *)
(* ================================================================== *)

Section SessionLaws.
Local Open Scope string_scope.

(** X5.  A frame the handler cannot use makes it throw before it has
    touched the state: a frame that is no JSON (the error of
    [JSON.parse] goes through), and a trade frame whose [data] is no
    array (a TypeError). *)
Theorem malformed_frame_changes_nothing (st : State) (event : MessageEvent) :
  (forall e, data event = Throw e ->
     realTimeQuoteResponseHandler event st = (Throw e, st)) /\
  (forall response,
     data event = Normal response ->
     frame_type response = Some "trade" ->
     (forall ref records, Get response "data" <> Normal (VArray ref records)) ->
     realTimeQuoteResponseHandler event st = (Throw TypeError, st)).
Proof.
  split.
  - intros e He. unfold realTimeQuoteResponseHandler. rewrite He. reflexivity.
  - intros response. apply handler_trade_malformed.
Qed.

Lemma malformed_frame_changes_nothing_witness :
  realTimeQuoteResponseHandler
    (message (VObject 0 [("type", VString "trade")])) initial
  = (Throw TypeError, initial).
Proof.
  apply (proj2 (malformed_frame_changes_nothing initial
                  (message (VObject 0 [("type", VString "trade")])))
           (VObject 0 [("type", VString "trade")]));
    [reflexivity | reflexivity | discriminate].
Defined.

Lemma subscribeHandler_no_connection st :
  socket st = None -> subscribeHandler st = (Normal tt, st).
Proof.
  intros H. unfold subscribeHandler.
  repeat (rewrite bind_run, subscribe_guarded, (guarded_send_undefined _ _ H)).
  rewrite subscribe_guarded. apply guarded_send_undefined, H.
Qed.

Lemma subscribeHandler_connecting st ws :
  socket st = Some ws -> readyState ws = CONNECTING ->
  subscribeHandler st = (Throw InvalidStateError, st).
Proof.
  intros H Hr. unfold subscribeHandler.
  rewrite bind_run, subscribe_guarded, (guarded_send_defined _ _ _ H), Hr.
  reflexivity.
Qed.

Lemma subscribeHandler_closing st ws :
  socket st = Some ws -> readyState ws = CLOSING \/ readyState ws = CLOSED ->
  subscribeHandler st = (Normal tt, st).
Proof.
  intros H Hr.
  assert (Hs : forall frame, guarded_send frame st = (Normal tt, st)).
  { intros frame. rewrite (guarded_send_defined _ _ _ H).
    destruct Hr as [-> | ->]; reflexivity. }
  unfold subscribeHandler.
  repeat (rewrite bind_run, subscribe_guarded, Hs).
  rewrite subscribe_guarded. apply Hs.
Qed.

(** X6.  [subscribeHandler] sends its eight frames or none.  On an open
    connection it sends all eight in order; without a connection, or on
    a closing or closed one, it sends nothing and returns; on a
    connection still being established the first [send] throws and
    nothing is sent. *)
Theorem subscribeHandler_all_or_nothing (st : State) :
  subscribeHandler st =
  match socket st with
  | None => (Normal tt, st)
  | Some ws =>
      match readyState ws with
      | CONNECTING => (Throw InvalidStateError, st)
      | OPEN =>
          (Normal tt,
           with_socket
             (with_sent (sent ws ++ List.map subscribe_frame preset_symbols) ws) st)
      | CLOSING | CLOSED => (Normal tt, st)
      end
  end.
Proof.
  destruct (socket st) as [ws|] eqn:H; [|apply subscribeHandler_no_connection, H].
  destruct (readyState ws) eqn:Hr.
  - apply (subscribeHandler_connecting st ws H Hr).
  - apply (subscribeHandler_open st ws H Hr).
  - apply (subscribeHandler_closing st ws H). left. exact Hr.
  - apply (subscribeHandler_closing st ws H). right. exact Hr.
Qed.

(** X7.  [start] on top of a live connection replaces the reference and
    leaves the old connection as it is, open and with its listeners: a
    frame that arrives on the old connection still goes through the
    message handler and into the store. *)
Theorem replaced_connection_still_feeds_store
    (st : State) (ws : WebSocket) (token : string) (event : MessageEvent)
    (Hsocket : socket st = Some ws)
    (Hopen : readyState ws = OPEN)
    (Hlistens : callbacks "message" ws = ["realTimeQuoteResponseHandler"])
    (Htoken : has_fragment token = false) :
  detached (run (start token) st) = (detached st ++ [ws])%list /\
  step (Message (Detached (List.length (detached st))) event) (run (start token) st) =
    run (realTimeQuoteResponseHandler event) (run (start token) st).
Proof.
  unfold run at 1 2 4. rewrite start_run, Htoken. cbn [snd].
  unfold started. rewrite Hsocket. split; [reflexivity|].
  cbn [step target detached]. rewrite list_lookup_middle by reflexivity.
  rewrite Hopen, Hlistens. reflexivity.
Qed.

Lemma replaced_connection_still_feeds_store_witness :
  detached
    (run (start "b")
       (mkState [] (Some (with_readyState OPEN (connection "a"))) [] []))
  = [with_readyState OPEN (connection "a")].
Proof.
  apply (proj1 (replaced_connection_still_feeds_store
                  (mkState [] (Some (with_readyState OPEN (connection "a"))) [] [])
                  (with_readyState OPEN (connection "a")) "b"
                  (message (trade_frame [aapl_quote 2 "150.25" "10" "1700000000000"]))
                  eq_refl eq_refl eq_refl eq_refl)).
Defined.

(** X8.  A token with a [#] makes [start] throw a SyntaxError before
    anything is assigned: the state, the current connection included,
    is as it was.  On any other token [start] returns normally with a
    fresh connection that is being established, listens for [open] and
    [message] and has sent nothing. *)
Theorem start_rejects_fragment (token : string) (st : State) :
  (has_fragment token = true -> start token st = (Throw SyntaxError, st)) /\
  (has_fragment token = false ->
   start token st = (Normal tt, started token st) /\
   socket (started token st) = Some (connection token)).
Proof.
  rewrite start_run. split; intros ->; [reflexivity | split; reflexivity].
Qed.

Lemma start_rejects_fragment_witness :
  start "abc#def" (run (start "token") initial) =
  (Throw SyntaxError, run (start "token") initial).
Proof.
  apply (proj1 (start_rejects_fragment "abc#def" (run (start "token") initial))).
  reflexivity.
Defined.

Lemma after_close_not_live r : after_close r = CLOSING \/ after_close r = CLOSED.
Proof. destruct r; auto. Qed.

Lemma callbacks_deregistered type cb ls :
  In cb (List.map snd
           (List.filter (fun l => String.eqb (fst l) type) (deregistered ls))) ->
  (type, cb) <> ("open", "subscribeHandler") /\
  (type, cb) <> ("message", "realTimeQuoteResponseHandler").
Proof.
  rewrite in_map_iff. intros ([t c] & <- & Hin).
  apply filter_In in Hin as [Hin Ht]. cbn [fst snd] in *.
  apply String.eqb_eq in Ht. subst t.
  unfold deregistered in Hin.
  apply filter_In in Hin as [Hin Ho]. apply filter_In in Hin as [_ Hm].
  apply negb_true_iff in Ho, Hm. unfold listener_eqb in *. cbn [fst snd] in *.
  split; intros [= -> ->].
  - rewrite !String.eqb_refl in Ho. discriminate.
  - rewrite !String.eqb_refl in Hm. discriminate.
Qed.

(** X9.  After [stop] the connection is silent: its message and open
    events change nothing, and neither handler of the script is
    registered on it any more. *)
Theorem stopped_connection_is_silent (st : State) (event : MessageEvent) :
  step (Message Current event) (run stop st) = run stop st /\
  step (Open Current) (run stop st) = run stop st /\
  (forall ws, socket (run stop st) = Some ws ->
     ~ In "realTimeQuoteResponseHandler" (callbacks "message" ws) /\
     ~ In "subscribeHandler" (callbacks "open" ws)).
Proof.
  unfold run. rewrite stop_run. cbn [snd].
  destruct (socket st) as [ws|] eqn:H.
  - cbn [step target with_socket socket stopped readyState].
    destruct (after_close_not_live (readyState ws)) as [-> | ->];
      (split; [reflexivity|]; split; [reflexivity|]);
      intros ws' [= <-]; unfold callbacks; cbn [listeners];
      split; intros Hin; apply callbacks_deregistered in Hin; tauto.
  - cbn [step target]. rewrite H.
    split; [reflexivity|]. split; [reflexivity|]. intros ws'. discriminate.
Qed.

Lemma stopped_connection_is_silent_witness :
  ~ In "realTimeQuoteResponseHandler"
      (callbacks "message" (stopped (with_readyState OPEN (connection "a")))).
Proof.
  apply (proj2 (proj2 (stopped_connection_is_silent
           (mkState [] (Some (with_readyState OPEN (connection "a"))) [] [])
           no_data))
           (stopped (with_readyState OPEN (connection "a")))).
  reflexivity.
Defined.

(** X10.  [stop] does not forget the connection, so [subscribe] and
    [unsubscribe] after it still get past their guard; on the closing
    connection they send nothing and raise nothing. *)
Theorem subscribe_after_stop (symbol : string) (st : State) :
  subscribe symbol (run stop st) = (Normal tt, run stop st) /\
  unsubscribe symbol (run stop st) = (Normal tt, run stop st) /\
  (socket st <> None -> socket (run stop st) <> None).
Proof.
  unfold run. rewrite stop_run. cbn [snd].
  destruct (socket st) as [ws|] eqn:H.
  - destruct (subscribe_closing symbol (with_socket (stopped ws) st) (stopped ws) eq_refl
                (after_close_not_live (readyState ws))) as [Hs Hu].
    split; [exact Hs|]. split; [exact Hu|]. intros _. discriminate.
  - destruct (subscribe_no_connection symbol st H) as [Hs Hu].
    split; [exact Hs|]. split; [exact Hu|]. intros Hn. congruence.
Qed.

Lemma subscribe_after_stop_witness :
  socket (run stop (mkState [] (Some (with_readyState OPEN (connection "a"))) [] []))
  <> None.
Proof.
  apply (proj2 (proj2 (subscribe_after_stop "AAPL"
           (mkState [] (Some (with_readyState OPEN (connection "a"))) [] [])))).
  discriminate.
Defined.

End SessionLaws.

(* ================================================================== *)
(** * The connections over time                                        *)
(* ================================================================== *)

Section Connections.
Local Open Scope string_scope.

Lemma same_detached_refl st : same_detached st st.
Proof. reflexivity. Qed.

Lemma same_detached_trans a b c :
  same_detached a b -> same_detached b c -> same_detached a c.
Proof. unfold same_detached. congruence. Qed.

Lemma same_connections_refl st : same_connections st st.
Proof. split; reflexivity. Qed.

Lemma same_connections_trans a b c :
  same_connections a b -> same_connections b c -> same_connections a c.
Proof. unfold same_connections. intros [? ?] [? ?]. split; congruence. Qed.

Lemma on_socket_same_detached {A} (f : WebSocket -> Completion A * WebSocket) :
  keeps same_detached (on_socket f).
Proof.
  intros st. unfold on_socket. destruct (socket st) as [ws|]; [|reflexivity].
  destruct (f ws). reflexivity.
Qed.

Lemma guarded_send_same_detached frame : keeps same_detached (guarded_send frame).
Proof.
  unfold guarded_send.
  apply keeps_bind;
    [exact same_detached_trans | apply keeps_socket_value, same_detached_refl | intros sv].
  destruct (decide (sv <> None)).
  - apply on_socket_same_detached.
  - apply keeps_ret, same_detached_refl.
Qed.

Lemma subscribeHandler_same_detached : keeps same_detached subscribeHandler.
Proof.
  unfold subscribeHandler.
  repeat (apply keeps_bind;
          [exact same_detached_trans | apply guarded_send_same_detached | intros _]).
  apply guarded_send_same_detached.
Qed.

(** The message handler leaves the connections alone. *)
Lemma handler_same_connections event :
  keeps same_connections (realTimeQuoteResponseHandler event).
Proof.
  pose proof same_connections_refl as Hr. pose proof same_connections_trans as Ht.
  unfold realTimeQuoteResponseHandler.
  apply keeps_bind; [exact Ht | apply keeps_lift, Hr | intros response].
  destruct (ToBoolean response); [|apply keeps_ret, Hr].
  apply keeps_bind; [exact Ht | apply keeps_lift, Hr | intros type].
  destruct (IsStrictlyEqual type (VString "error")).
  { intros st. split; reflexivity. }
  destruct (IsStrictlyEqual type (VString "trade")); [|apply keeps_ret, Hr].
  apply keeps_bind; [exact Ht | apply keeps_lift, Hr | intros trade_data].
  apply keeps_forEach; [exact Hr | exact Ht | intros quote].
  apply keeps_bind; [exact Ht | apply keeps_lift, Hr | intros k].
  intros st. split; reflexivity.
Qed.

Lemma detached_silent_refl st : detached_silent st st.
Proof. intros i ws H. eauto. Qed.

Lemma detached_silent_trans a b c :
  detached_silent a b -> detached_silent b c -> detached_silent a c.
Proof.
  intros H1 H2 i ws H. destruct (H1 i ws H) as (ws1 & Hl1 & Hs1).
  destruct (H2 i ws1 Hl1) as (ws2 & Hl2 & Hs2). exists ws2. split; congruence.
Qed.

Lemma same_detached_silent st st' : same_detached st st' -> detached_silent st st'.
Proof. unfold same_detached. intros H i ws Hl. rewrite H. eauto. Qed.

Lemma set_target_silent t ws r st :
  target t st = Some ws ->
  detached_silent st (set_target t (with_readyState r ws) st).
Proof.
  destruct t as [|j]; cbn [target set_target]; intros Ht i ws0 Hl; cbn [detached].
  - eauto.
  - destruct (decide (j = i)) as [->|Hne].
    + rewrite list_lookup_insert_eq by (eapply lookup_lt_Some; eassumption).
      exists (with_readyState r ws). split; [reflexivity|]. cbn. congruence.
    + rewrite list_lookup_insert_ne by exact Hne. eauto.
Qed.

Lemma dispatch_silent cbs event st : detached_silent st (dispatch cbs event st).
Proof.
  revert st. induction cbs as [|cb cbs IH]; intros st; cbn [dispatch fold_left].
  - apply detached_silent_refl.
  - eapply detached_silent_trans; [|apply IH].
    apply same_detached_silent. unfold run, invoke.
    destruct (String.eqb cb "subscribeHandler").
    + apply subscribeHandler_same_detached.
    + destruct (String.eqb cb "realTimeQuoteResponseHandler").
      * apply handler_same_connections.
      * reflexivity.
Qed.

Lemma step_silent e st : detached_silent st (step e st).
Proof.
  destruct e as [token| |symbol|symbol|t|t event|t]; cbn [step].
  - unfold run. rewrite start_run. destruct (has_fragment token); cbn [snd].
    + apply detached_silent_refl.
    + intros i ws H. exists ws. split; [|reflexivity].
      cbn [started detached]. apply lookup_app_l_Some, H.
  - apply same_detached_silent. unfold run. rewrite stop_run. cbn [snd].
    destruct (socket st); reflexivity.
  - apply same_detached_silent, (guarded_send_same_detached (subscribe_frame symbol)).
  - apply same_detached_silent, (guarded_send_same_detached (unsubscribe_frame symbol)).
  - destruct (target t st) as [ws|] eqn:Ht; [|apply detached_silent_refl].
    destruct (readyState ws); try apply detached_silent_refl.
    eapply detached_silent_trans; [|apply dispatch_silent].
    apply set_target_silent, Ht.
  - destruct (target t st) as [ws|]; [|apply detached_silent_refl].
    destruct (readyState ws); try apply detached_silent_refl.
    apply dispatch_silent.
  - destruct (target t st) as [ws|] eqn:Ht; [|apply detached_silent_refl].
    destruct (readyState ws); try apply detached_silent_refl;
      apply set_target_silent, Ht.
Qed.

(** X12.  The script only ever sends on the connection [socket.value]
    refers to.  A connection that [start] has replaced stays with the
    host, and whatever happens afterwards, nothing more is sent on it:
    subscriptions made after a restart go to the new connection only. *)
Theorem replaced_connection_sends_no_more
    (es : list Event) (st : State) (i : nat) (ws : WebSocket)
    (Hold : detached st !! i = Some ws) :
  exists ws' : WebSocket,
    detached (steps es st) !! i = Some ws' /\ sent ws' = sent ws.
Proof.
  revert st ws Hold. unfold steps.
  induction es as [|e es IH]; intros st ws Hold; cbn [fold_left].
  - eauto.
  - destruct (step_silent e st i ws Hold) as (ws1 & H1 & Hs1).
    destruct (IH _ _ H1) as (ws2 & H2 & Hs2). exists ws2. split; congruence.
Qed.

Lemma replaced_connection_sends_no_more_witness :
  exists ws' : WebSocket,
    detached
      (steps [Open Current; SubmitAdd "MSFT"; ClickStop]
         (steps [ClickStart "a"; Open Current; ClickStart "b"] initial)) !! 0
    = Some ws' /\
    sent ws' = List.map subscribe_frame preset_symbols.
Proof.
  apply (replaced_connection_sends_no_more
           [Open Current; SubmitAdd "MSFT"; ClickStop]
           (steps [ClickStart "a"; Open Current; ClickStart "b"] initial) 0
           (with_sent (List.map subscribe_frame preset_symbols)
              (with_readyState OPEN (connection "a")))).
  reflexivity.
Defined.

End Connections.

Section Orderly.
Local Open Scope string_scope.

Lemma still_orderly_refl st : still_orderly st st.
Proof. intros H. exact H. Qed.

Lemma still_orderly_trans a b c :
  still_orderly a b -> still_orderly b c -> still_orderly a c.
Proof. unfold still_orderly. auto. Qed.

Lemma same_connections_orderly st st' : same_connections st st' -> still_orderly st st'.
Proof.
  intros [Hs Hd]. unfold still_orderly, all_orderly, connections.
  rewrite Hs, Hd. auto.
Qed.

Lemma orderly_with_readyState r ws :
  orderly ws -> r <> CONNECTING \/ sent ws = [] -> orderly (with_readyState r ws).
Proof.
  intros [Hf Hc] Hr. split; cbn [with_readyState sent readyState]; [exact Hf|].
  intros ->. destruct Hr as [Hr|Hr]; [congruence | exact Hr].
Qed.

Lemma all_orderly_current st ws :
  socket st = Some ws ->
  all_orderly st <-> orderly ws /\ Forall orderly (detached st).
Proof.
  intros H. unfold all_orderly, connections. rewrite H. cbn [app].
  rewrite Forall_cons_iff. reflexivity.
Qed.

Lemma all_orderly_intro st ws :
  socket st = Some ws -> orderly ws -> Forall orderly (detached st) -> all_orderly st.
Proof. intros H Hw Hd. apply (all_orderly_current st ws H). split; assumption. Qed.

Lemma all_orderly_none st :
  socket st = None -> all_orderly st <-> Forall orderly (detached st).
Proof. intros H. unfold all_orderly, connections. rewrite H. reflexivity. Qed.

Lemma guarded_send_orderly frame :
  session_frame frame -> keeps still_orderly (guarded_send frame).
Proof.
  intros Hf st. destruct (socket st) as [ws|] eqn:H.
  - rewrite (guarded_send_defined _ _ _ H).
    destruct (readyState ws) eqn:Hr; cbn [snd]; try apply still_orderly_refl.
    intros Ho. apply (all_orderly_current st ws H) in Ho as [[Hs Hc] Hd].
    eapply all_orderly_intro; [reflexivity | | exact Hd].
    split; cbn [with_sent sent readyState].
    + apply Forall_app. split; [exact Hs | constructor; [exact Hf | constructor]].
    + congruence.
  - rewrite (guarded_send_undefined _ _ H). apply still_orderly_refl.
Qed.

Lemma subscribe_frame_session symbol : session_frame (subscribe_frame symbol).
Proof. exists symbol. left. reflexivity. Qed.

Lemma unsubscribe_frame_session symbol : session_frame (unsubscribe_frame symbol).
Proof. exists symbol. right. reflexivity. Qed.

Lemma subscribeHandler_orderly : keeps still_orderly subscribeHandler.
Proof.
  unfold subscribeHandler.
  repeat (apply keeps_bind;
          [exact still_orderly_trans
          | apply (guarded_send_orderly _ (subscribe_frame_session _))
          | intros _]).
  apply (guarded_send_orderly _ (subscribe_frame_session _)).
Qed.

Lemma start_orderly token : keeps still_orderly (start token).
Proof.
  intros st. rewrite start_run. destruct (has_fragment token); cbn [snd].
  - apply still_orderly_refl.
  - intros Ho. eapply all_orderly_intro;
      [reflexivity | split; [constructor | reflexivity] |].
    cbn [started detached]. unfold all_orderly, connections in Ho.
    apply Forall_app. destruct (socket st) as [old|]; cbn [app] in Ho.
    + apply Forall_cons_iff in Ho as [Hold Hd]. split; [exact Hd|].
      constructor; [exact Hold | constructor].
    + split; [exact Ho | constructor].
Qed.

Lemma stop_orderly : keeps still_orderly stop.
Proof.
  intros st. rewrite stop_run. cbn [snd].
  destruct (socket st) as [ws|] eqn:H; [|apply still_orderly_refl].
  intros Ho. apply (all_orderly_current st ws H) in Ho as [[Hs Hc] Hd].
  eapply all_orderly_intro; [reflexivity | | exact Hd].
  split; cbn [stopped sent readyState]; [exact Hs|].
  destruct (readyState ws); discriminate.
Qed.

Lemma set_target_orderly t ws r st :
  target t st = Some ws ->
  r <> CONNECTING \/ sent ws = [] ->
  still_orderly st (set_target t (with_readyState r ws) st).
Proof.
  intros Ht Hr Ho. destruct t as [|i]; cbn [target set_target] in *.
  - apply (all_orderly_current st ws Ht) in Ho as [Hw Hd].
    eapply all_orderly_intro;
      [reflexivity | apply orderly_with_readyState; assumption | exact Hd].
  - unfold all_orderly, connections in *. cbn [socket detached].
    apply Forall_app in Ho as [Hc Hd]. apply Forall_app. split; [exact Hc|].
    apply Forall_insert; [exact Hd|].
    apply orderly_with_readyState; [|exact Hr].
    eapply Forall_lookup_1; eassumption.
Qed.

Lemma dispatch_orderly cbs event st : still_orderly st (dispatch cbs event st).
Proof.
  revert st. induction cbs as [|cb cbs IH]; intros st; cbn [dispatch fold_left].
  - apply still_orderly_refl.
  - eapply still_orderly_trans; [|apply IH]. unfold run, invoke.
    destruct (String.eqb cb "subscribeHandler").
    + apply subscribeHandler_orderly.
    + destruct (String.eqb cb "realTimeQuoteResponseHandler").
      * apply same_connections_orderly, handler_same_connections.
      * apply still_orderly_refl.
Qed.

Lemma step_orderly e st : still_orderly st (step e st).
Proof.
  destruct e as [token| |symbol|symbol|t|t event|t]; cbn [step].
  - apply start_orderly.
  - apply stop_orderly.
  - apply (guarded_send_orderly _ (subscribe_frame_session symbol)).
  - apply (guarded_send_orderly _ (unsubscribe_frame_session symbol)).
  - destruct (target t st) as [ws|] eqn:Ht; [|apply still_orderly_refl].
    destruct (readyState ws); try apply still_orderly_refl.
    eapply still_orderly_trans; [|apply dispatch_orderly].
    apply set_target_orderly; [exact Ht | left; discriminate].
  - destruct (target t st) as [ws|]; [|apply still_orderly_refl].
    destruct (readyState ws); try apply still_orderly_refl.
    apply dispatch_orderly.
  - destruct (target t st) as [ws|] eqn:Ht; [|apply still_orderly_refl].
    destruct (readyState ws); try apply still_orderly_refl;
      (apply set_target_orderly; [exact Ht | left; discriminate]).
Qed.

(** X11.  In every state the script can reach, every connection, the
    current one and the replaced ones, has been sent subscribe and
    unsubscribe frames only, and none before it was open. *)
Theorem only_session_frames_sent (st : State) (Hr : reachable st) :
  forall ws, In ws (connections st) ->
    Forall session_frame (sent ws) /\ (readyState ws = CONNECTING -> sent ws = []).
Proof.
  assert (Ho : all_orderly st).
  { induction Hr as [|e st Hr IH]; [constructor | exact (step_orderly e st IH)]. }
  intros ws Hin. unfold all_orderly in Ho. rewrite Forall_forall in Ho.
  apply Ho. apply list_elem_of_In. exact Hin.
Qed.

Lemma only_session_frames_sent_witness :
  Forall session_frame
    (List.map subscribe_frame preset_symbols ++ [subscribe_frame "MSFT"])%list.
Proof.
  refine (proj1 (only_session_frames_sent
            (step (SubmitAdd "MSFT")
               (step (Open Current) (step (ClickStart "token") initial)))
            _ (with_sent
                 (List.map subscribe_frame preset_symbols ++ [subscribe_frame "MSFT"])%list
                 (with_readyState OPEN (connection "token"))) _)).
  - repeat apply reachable_step. apply reachable_initial.
  - vm_compute. left. reflexivity.
Defined.

End Orderly.

(* ================================================================== *)
(** * The icon and the search                                          *)
(* ================================================================== *)

Section IconAndSearch.
Local Open Scope string_scope.

Lemma faSymbol_of_branded s :
  includes branded (formatSymbol s) = true ->
  faSymbol s = "btc" \/ faSymbol s = "ethereum".
Proof.
  intros H. apply includes_branded in H. unfold faSymbol.
  destruct H as [-> | ->]; [left | right]; reflexivity.
Qed.

(** X13.  [symbolIconString] never throws.  On a string it gives the
    class ["fa-brands fa-"] followed by the icon name, and for a symbol
    that [isBranded] accepts the icon name is there: the class is
    ["fa-brands fa-btc"] or ["fa-brands fa-ethereum"].  It gives the
    empty string exactly for an argument that is no string, and those
    are the arguments on which [isBranded] throws. *)
Theorem symbolIconString_of_branded (symbol : value) :
  (isBranded_call symbol = Normal true ->
   symbolIconString symbol = "fa-brands fa-btc" \/
   symbolIconString symbol = "fa-brands fa-ethereum") /\
  (symbolIconString symbol = EmptyString <-> forall s, symbol <> VString s) /\
  (symbolIconString symbol = EmptyString <-> isBranded_call symbol = Throw TypeError) /\
  (forall s, symbol = VString s ->
     symbolIconString symbol = "fa-brands fa-" ++ faSymbol s).
Proof.
  destruct symbol as [| | | |s| |];
    try (cbn; split; [intros H; discriminate H|];
         split; [split; [intros _ s; discriminate | reflexivity]|];
         split; [split; intros _; reflexivity | intros s H; discriminate H]).
  change (symbolIconString (VString s)) with ("fa-brands fa-" ++ faSymbol s).
  change (isBranded_call (VString s))
    with (Normal (if includes branded (formatSymbol s) then true else false)).
  split.
  { destruct (includes branded (formatSymbol s)) eqn:E; [|discriminate].
    intros _. destruct (faSymbol_of_branded s E) as [-> | ->]; [left | right]; reflexivity. }
  split.
  { split; [discriminate|]. intros H. exfalso. exact (H s eq_refl). }
  split.
  { split; discriminate. }
  intros s' [= <-]. reflexivity.
Qed.

Lemma symbolIconString_of_branded_witness :
  symbolIconString (VString "BINANCE:ETHUSDT") = "fa-brands fa-ethereum".
Proof.
  destruct (proj1 (symbolIconString_of_branded (VString "BINANCE:ETHUSDT")) eq_refl)
    as [H|H]; [discriminate H | exact H].
Defined.

Lemma search_result client_get query token results ref :
  search client_get query token = Normal (VArray ref results) ->
  performSearch client_get query token = (Normal tt, results).
Proof. unfold performSearch. intros ->. reflexivity. Qed.

(** What [search] returns when the response has nothing to return. *)
Lemma search_nothing client_get query token response :
  client_get (search_url query token) = Normal response ->
  ToBoolean response = false \/
  (exists payload, Get response "data" = Normal payload /\ ToBoolean payload = false) ->
  search client_get query token = Normal VUndefined.
Proof.
  intros Hget H. unfold search. rewrite Hget.
  destruct H as [-> | (payload & -> & ->)]; [reflexivity|].
  destruct (ToBoolean response); reflexivity.
Qed.

(** X14.  When the response has a [data] payload whose [result] is an
    array, [performSearch] prints the entries of that array, each once
    and in order, and returns normally. *)
Theorem performSearch_prints_results
    (client_get : string -> Completion value) (query token : string)
    (ref ref' ref'' : nat) (fields payload : list (string * value))
    (results : list value)
    (Hget : client_get (search_url query token) = Normal (VObject ref fields))
    (Hdata : assoc "data" fields = Some (VObject ref' payload))
    (Hresult : assoc "result" payload = Some (VArray ref'' results)) :
  performSearch client_get query token = (Normal tt, results).
Proof.
  apply (search_result _ _ _ _ ref''). unfold search. rewrite Hget.
  cbn [ToBoolean Get]. rewrite Hdata. cbn [ToBoolean Get]. rewrite Hresult.
  reflexivity.
Qed.

Lemma performSearch_prints_results_witness :
  performSearch
    (answering
       (Normal (VObject 0
          [("data",
            VObject 1
              [("count", VString "1");
               ("result",
                VArray 2
                  [VObject 3 [("description", VString "APPLE INC");
                              ("displaySymbol", VString "AAPL");
                              ("symbol", VString "AAPL");
                              ("type", VString "Common Stock")]])])])))
    "apple" "token"
  = (Normal tt,
     [VObject 3 [("description", VString "APPLE INC");
                 ("displaySymbol", VString "AAPL");
                 ("symbol", VString "AAPL");
                 ("type", VString "Common Stock")]]).
Proof.
  apply (performSearch_prints_results _ "apple" "token" 0 1 2
           [("data",
             VObject 1
               [("count", VString "1");
                ("result",
                 VArray 2
                   [VObject 3 [("description", VString "APPLE INC");
                               ("displaySymbol", VString "AAPL");
                               ("symbol", VString "AAPL");
                               ("type", VString "Common Stock")]])])]
           [("count", VString "1");
            ("result",
             VArray 2
               [VObject 3 [("description", VString "APPLE INC");
                           ("displaySymbol", VString "AAPL");
                           ("symbol", VString "AAPL");
                           ("type", VString "Common Stock")]])]);
    reflexivity.
Defined.

(** X15.  [search] returns nothing, without an error, when the response
    is missing or has no [data] payload; [performSearch] does not
    expect that: it then throws a TypeError and prints nothing. *)
Theorem performSearch_without_payload
    (client_get : string -> Completion value) (query token : string)
    (response : value)
    (Hget : client_get (search_url query token) = Normal response)
    (Hnone : ToBoolean response = false \/
             (exists payload,
                Get response "data" = Normal payload /\ ToBoolean payload = false)) :
  search client_get query token = Normal VUndefined /\
  performSearch client_get query token = (Throw TypeError, []).
Proof.
  pose proof (search_nothing _ _ _ _ Hget Hnone) as Hs.
  split; [exact Hs|]. unfold performSearch. rewrite Hs. reflexivity.
Qed.

Lemma performSearch_without_payload_witness :
  performSearch
    (answering (Normal (VObject 0 [("status", VString "401"); ("ok", VBool false)])))
    "apple" "token"
  = (Throw TypeError, []).
Proof.
  apply (proj2 (performSearch_without_payload
                  (answering
                     (Normal (VObject 0 [("status", VString "401"); ("ok", VBool false)])))
                  "apple" "token"
                  (VObject 0 [("status", VString "401"); ("ok", VBool false)])
                  eq_refl
                  (or_intror (ex_intro _ VUndefined (conj eq_refl eq_refl))))).
Defined.

End IconAndSearch.

(* ================================================================== *)
(** * Which part formatSymbol replaces                                 *)
(* ================================================================== *)

Section LeftmostLongest.
Local Open Scope string_scope.

Lemma string_length_app (a b : string) :
  String.length (a ++ b) = String.length a + String.length b.
Proof. induction a; simpl; congruence. Qed.

Lemma string_app_inv_head (a b c : string) : a ++ b = a ++ c -> b = c.
Proof. induction a; simpl; [auto | intros [= H]; auto]. Qed.

(** The capture of [(.+)USDT] is the longest there is. *)
Lemma group_then_USDT_longest t cap rest xxx post :
  group_then_USDT t = Some (cap, rest) ->
  t = xxx ++ "USDT" ++ post -> xxx <> EmptyString -> one_line xxx = true ->
  String.length xxx <= String.length cap.
Proof.
  revert cap rest xxx. induction t as [|c t IH]; intros cap rest xxx;
    cbn [group_then_USDT]; [discriminate|].
  destruct (is_line_terminator c); [discriminate|].
  intros Hg Ht Hne Hl. destruct xxx as [|c' x]; [congruence|].
  change (String c' x ++ "USDT" ++ post) with (String c' (x ++ "USDT" ++ post)) in Ht.
  injection Ht as <- Ht.
  cbn [one_line] in Hl. apply andb_prop in Hl as [_ Hl].
  destruct (group_then_USDT t) as [[cap0 rest0]|] eqn:E.
  - injection Hg as <- <-. cbn [String.length].
    destruct x as [|d x]; [cbn; lia|].
    apply le_n_S. apply (IH cap0 rest0 (String d x) eq_refl Ht); [discriminate | exact Hl].
  - destruct x as [|d x]; [destruct (strip_prefix "USDT" t); [|discriminate];
                           injection Hg as <- <-; cbn; lia|].
    exfalso. subst t.
    apply (group_then_USDT_complete (String d x) post); [discriminate | exact Hl | exact E].
Qed.

Lemma exec_leftmost s pre cap rest pre' xxx post :
  exec s = Some (pre, cap, rest) ->
  s = pre' ++ "BINANCE:" ++ xxx ++ "USDT" ++ post ->
  xxx <> EmptyString -> one_line xxx = true ->
  String.length pre <= String.length pre'.
Proof.
  revert pre pre'. induction s as [|c s IH]; intros pre pre'.
  - cbn. discriminate.
  - cbn [exec]. destruct (match_here (String c s)) as [[cap0 rest0]|] eqn:Hm.
    + intros [= <- <- <-] _ _ _. cbn. lia.
    + destruct (exec s) as [[[pre0 cap0] rest0]|] eqn:He; [|discriminate].
      intros [= <- <- <-] Hs Hne Hl.
      destruct pre' as [|c' pre'].
      * exfalso. cbn [append] in Hs. rewrite Hs in Hm.
        exact (match_here_complete xxx post Hne Hl Hm).
      * change (String c' pre' ++ "BINANCE:" ++ xxx ++ "USDT" ++ post)
          with (String c' (pre' ++ "BINANCE:" ++ xxx ++ "USDT" ++ post)) in Hs.
        injection Hs as _ Hs. cbn [String.length]. apply le_n_S.
        exact (IH pre0 pre' eq_refl Hs Hne Hl).
Qed.

Lemma exec_longest s pre cap rest xxx post :
  exec s = Some (pre, cap, rest) ->
  s = pre ++ "BINANCE:" ++ xxx ++ "USDT" ++ post ->
  xxx <> EmptyString -> one_line xxx = true ->
  String.length xxx <= String.length cap.
Proof.
  revert pre. induction s as [|c s IH]; intros pre.
  - cbn. discriminate.
  - cbn [exec]. destruct (match_here (String c s)) as [[cap0 rest0]|] eqn:Hm.
    + intros [= <- <- <-] Hs Hne Hl.
      rewrite Hs in Hm.
      change (match_here ("BINANCE:" ++ xxx ++ "USDT" ++ post) = Some (cap0, rest0)) in Hm.
      unfold match_here in Hm. rewrite strip_prefix_app in Hm.
      exact (group_then_USDT_longest _ _ _ _ _ Hm eq_refl Hne Hl).
    + destruct (exec s) as [[[pre0 cap0] rest0]|] eqn:He; [|discriminate].
      intros [= <- <- <-] Hs Hne Hl.
      change (String c pre0 ++ "BINANCE:" ++ xxx ++ "USDT" ++ post)
        with (String c (pre0 ++ "BINANCE:" ++ xxx ++ "USDT" ++ post)) in Hs.
      injection Hs as Hs. exact (IH pre0 eq_refl Hs Hne Hl).
Qed.

Lemma string_prefix_same_length (a a' b b' : string) :
  a ++ b = a' ++ b' -> String.length a = String.length a' -> a = a'.
Proof.
  revert a'. induction a as [|c a IH]; intros [|c' a']; cbn [String.length];
    try discriminate; [reflexivity|].
  change (String c a ++ b) with (String c (a ++ b)).
  change (String c' a' ++ b') with (String c' (a' ++ b')).
  intros [= <- H] [= Hlen]. f_equal. exact (IH a' H Hlen).
Qed.

(** X16.  Of all the parts [BINANCE:XXXUSDT] of its input ([XXX]
    non-empty and on one line), [formatSymbol] replaces one: the part
    that starts first, and of those that start there the one with the
    longest [XXX].  What it puts in its place is that [XXX], itself
    non-empty and on one line; the result is twelve code units shorter
    than the input, the length of [BINANCE:] and [USDT]. *)
Theorem formatSymbol_leftmost_longest
    (s pre xxx post : string)
    (Hs : s = pre ++ "BINANCE:" ++ xxx ++ "USDT" ++ post)
    (Hne : xxx <> EmptyString)
    (Hl : one_line xxx = true) :
  exists pre0 cap rest : string,
    s = pre0 ++ "BINANCE:" ++ cap ++ "USDT" ++ rest /\
    cap <> EmptyString /\ one_line cap = true /\
    formatSymbol s = pre0 ++ cap ++ rest /\
    String.length pre0 <= String.length pre /\
    (String.length pre0 = String.length pre ->
     pre0 = pre /\ String.length xxx <= String.length cap) /\
    String.length (formatSymbol s) + 12 = String.length s.
Proof.
  assert (Hp : has_binance_pair s) by (exists pre, xxx, post; auto).
  apply exec_complete in Hp.
  destruct (exec s) as [[[pre0 cap] rest]|] eqn:E; [|congruence].
  destruct (exec_sound _ _ _ _ E) as (Hs0 & Hcap & Hline).
  assert (Hf : formatSymbol s = pre0 ++ cap ++ rest)
    by (unfold formatSymbol; rewrite E; reflexivity).
  exists pre0, cap, rest.
  split; [exact Hs0|]. split; [exact Hcap|]. split; [exact Hline|].
  split; [exact Hf|].
  split; [exact (exec_leftmost _ _ _ _ _ _ _ E Hs Hne Hl)|].
  split.
  - intros Hlen.
    assert (Hpre : pre0 = pre).
    { apply (string_prefix_same_length pre0 pre
               ("BINANCE:" ++ cap ++ "USDT" ++ rest)
               ("BINANCE:" ++ xxx ++ "USDT" ++ post)); [congruence | exact Hlen]. }
    split; [exact Hpre|]. subst pre0.
    exact (exec_longest _ _ _ _ _ _ E Hs Hne Hl).
  - rewrite Hf. rewrite Hs0 at 1. rewrite !string_length_app. cbn [String.length]. lia.
Qed.

Lemma formatSymbol_leftmost_longest_witness :
  String.length (formatSymbol "x BINANCE:AUSDT BINANCE:BUSDT y") + 12 = 31.
Proof.
  destruct (formatSymbol_leftmost_longest
              "x BINANCE:AUSDT BINANCE:BUSDT y" "x BINANCE:AUSDT " "B" " y"
              eq_refl) as (_ & _ & _ & _ & _ & _ & _ & _ & _ & H);
    [discriminate | reflexivity | exact H].
Defined.

End LeftmostLongest.
